(** * Tracker callbacks of [ultralytics/tracker/track.py]

    A shallow embedding of the two prediction callbacks
    [on_predict_start] and [on_predict_postprocess_end], and the
    properties of the tracker lifecycle and of the per-slot
    reconciliation that follow from the code.

    The callbacks are Python procedures that mutate the predictor object
    and may raise.  They are embedded in a state-and-exception monad over
    an explicit machine state: the predictor's attributes, a heap of
    tracker objects addressed by reference (object identity matters for
    persistence and replacement), and a chronological log of the calls
    made to the external collaborators (configuration loading, tracker
    construction, tracker update). *)

From stdpp Require Import base option list strings gmap.
From Stdlib Require Import ZArith Lia.

Local Open Scope string_scope.
Local Open Scope Z_scope.
Local Open Scope list_scope.

(** ** Python values and exceptions *)

(** A value loaded from the YAML profile.  Only strings can compare equal
    to the registered tracker names; every other value (numbers, booleans,
    [None], lists, ...) is kept with its [str()] rendering, which is all
    the code ever asks of it. *)
Inductive yaml_value :=
| YStr (s : string)
| YOther (rendering : string).

(** [str(v)], as the f-string of the assertion message formats it. *)
Definition py_str (v : yaml_value) : string :=
  match v with
  | YStr s => s
  | YOther r => r
  end.

(** The namespace [cfg] that [IterableSimpleNamespace] builds from the
    mapping returned by [yaml_load(tracker)]. *)
Abbreviation Cfg := (gmap string yaml_value).

Inductive exn :=
| AssertionError (msg : string)
| AttributeError (attr : string)
| IndexError
| KeyError (key : string)
| ExternalError (what : string)   (* raised inside a collaborator *)
| DanglingRef.                    (* a reference outside the heap: not a Python behaviour *)

Inductive result (A : Type) :=
| Ok (a : A)
| Raise (e : exn).
Arguments Ok {A} a.
Arguments Raise {A} e.

(** ** The tracker registry *)

Inductive TrackerKind := BYTETracker | BOTSORT.

(** [TRACKER_MAP = {'bytetrack': BYTETracker, 'botsort': BOTSORT}] *)
Definition TRACKER_MAP : gmap string TrackerKind :=
  <["bytetrack" := BYTETracker]> (<["botsort" := BOTSORT]> ∅).

(** [TRACKER_MAP[key]]: a key that is not a registered string raises
    [KeyError]. *)
Definition TRACKER_MAP_getitem (key : yaml_value) : result TrackerKind :=
  match key with
  | YStr s => match TRACKER_MAP !! s with
              | Some k => Ok k
              | None => Raise (KeyError s)
              end
  | YOther r => Raise (KeyError r)
  end.

(** [v in ['bytetrack', 'botsort']] *)
Definition supported_names : list string := ["bytetrack"; "botsort"].

Definition py_in (v : yaml_value) (names : list string) : bool :=
  match v with
  | YStr s => bool_decide (s ∈ names)
  | YOther _ => false
  end.

(** [f"Only support 'bytetrack' and 'botsort' for now, but got '{v}'"] *)
Definition unsupported_msg (v : yaml_value) : string :=
  "Only support 'bytetrack' and 'botsort' for now, but got '" +:+ py_str v +:+ "'".

(** [needle] occurs in [hay]. *)
Definition occurs_in (needle hay : string) : Prop :=
  ∃ pre post, hay = pre +:+ needle +:+ post.

(** References to tracker objects. *)
Abbreviation loc := nat (only parsing).

Section Track.

(** The data that the callbacks only carry around stays abstract: a row of
    the [boxes] array of a result, whatever else a result holds per
    detection (masks, keypoints), a source image, and the private state of
    a tracking algorithm. *)
Context {box_row extra image TState : Type}.

(** ** Results, tracks, trackers *)

(** One row of the array returned by [update]: [tr_box] is the row without
    its last column ([tracks[:, :-1]]), [tr_idx] the last column
    ([tracks[:, -1]]), the index of the detection the track came from. *)
Record track := mkTrack { tr_box : box_row; tr_idx : Z }.

(** A [Results] object: the [boxes] rows and, parallel to them, the rest of
    the per-detection data. *)
Record Results := mkResults { boxes : list box_row; others : list extra }.

(** A tracker object remembers what it was constructed from, next to its
    algorithm's private state. *)
Record Tracker := mkTracker {
  t_kind : TrackerKind;
  t_args : Cfg;
  t_frame_rate : Z;
  t_state : TState }.

(** [predictor.batch[2]] is either a list of images or a single one. *)
Inductive im0s_value :=
| Im0sList (l : list image)
| Im0sSingle (im : image).

(** Calls to the collaborators, in the order they are made. *)
Inductive event :=
| EvCheckYaml (name : string)
| EvYamlLoad (path : string)
| EvConstruct (kind : TrackerKind) (args : Cfg) (frame_rate : Z)
| EvUpdate (slot : nat) (tracker : loc) (det : list box_row) (im : image)
           (ret : result (list track)).

(** The attributes of [predictor] that the callbacks touch.  [trackers] is
    [None] while the attribute does not exist ([hasattr] is false). *)
Record Predictor := mkPredictor {
  trackers : option (list loc);
  args_tracker : string;          (* predictor.args.tracker *)
  from_img : bool;                (* predictor.source_type.from_img *)
  bs : Z;                         (* predictor.dataset.bs *)
  batch_im0s : im0s_value;        (* predictor.batch[2] *)
  results : list Results }.       (* predictor.results *)

Record State := mkState {
  predictor : Predictor;
  heap : list Tracker;
  trace : list event }.

Definition set_trackers (ts : list loc) (p : Predictor) : Predictor :=
  mkPredictor (Some ts) (args_tracker p) (from_img p) (bs p) (batch_im0s p) (results p).

Definition set_results (rs : list Results) (p : Predictor) : Predictor :=
  mkPredictor (trackers p) (args_tracker p) (from_img p) (bs p) (batch_im0s p) rs.

(** ** The monad of the callbacks

    A computation takes the machine state and gives back a result or an
    exception, with the state as it is at that point: what was mutated
    before an exception stays mutated. *)
Definition M (A : Type) : Type := State → result A * State.

Definition ret {A} (a : A) : M A := λ s, (Ok a, s).

Definition raise {A} (e : exn) : M A := λ s, (Raise e, s).

Definition bind {A B} (m : M A) (k : A → M B) : M B :=
  λ s, match m s with
       | (Ok a, s') => k a s'
       | (Raise e, s') => (Raise e, s')
       end.

Definition lift {A} (r : result A) : M A := λ s, (r, s).

Definition get_predictor : M Predictor := λ s, (Ok (predictor s), s).

Definition put_predictor (p : Predictor) : M unit :=
  λ s, (Ok tt, mkState p (heap s) (trace s)).

Definition log (e : event) : M unit :=
  λ s, (Ok tt, mkState (predictor s) (heap s) (trace s ++ [e])).

Definition modify_heap (f : list Tracker → list Tracker) : M unit :=
  λ s, (Ok tt, mkState (predictor s) (f (heap s)) (trace s)).

Definition get_heap : M (list Tracker) := λ s, (Ok (heap s), s).

Notation "'let*' x ':=' m 'in' k" := (bind m (λ x, k))
  (at level 10, x name, m at level 100, k at level 200).
Notation "m '>>' k" := (bind m (λ _, k))
  (at level 100, k at level 200, right associativity).

(** [l[i]] for a list and an index that is not negative. *)
Definition list_getitem {A} (l : list A) (i : nat) : result A :=
  match l !! i with
  | Some x => Ok x
  | None => Raise IndexError
  end.

(** [for x in xs: body(x)]: the first exception ends the loop. *)
Fixpoint for_each {A} (xs : list A) (body : A → M unit) : M unit :=
  match xs with
  | [] => ret tt
  | x :: xs' => body x >> for_each xs' body
  end.

(** [range(n)]: empty when [n <= 0]. *)
Definition range (n : Z) : list nat := seq 0 (Z.to_nat n).

(** ** The collaborators *)

(** [check_yaml(name)] resolves the profile name to a path, [yaml_load(path)]
    parses the file; both may raise.  [Ok cfg] is a document that is a
    mapping with string keys, together with the namespace that line 29
    builds from it.  A document of another shape (an empty file loads as
    [None]) makes the unpacking of line 29 raise [TypeError] before
    anything is stored; the model has no outcome for it, and what is said
    about a loaded profile is said under [yaml_load path = Ok cfg]. *)
Variable check_yaml : string → result string.
Variable yaml_load : string → result Cfg.

(** The constructor and the [update] method of the tracking algorithms,
    which are functions of their arguments and of the tracker's own state
    (the interface asks both calls to be pure from the callbacks' point of
    view).  [update] may change the tracker's state even when it raises. *)
Variable tracker_init : TrackerKind → Cfg → Z → result TState.
Variable tracker_update :
  TrackerKind → TState → list box_row → image → result (list track) * TState.

Definition call_check_yaml (name : string) : M string :=
  log (EvCheckYaml name) >> lift (check_yaml name).

Definition call_yaml_load (path : string) : M Cfg :=
  log (EvYamlLoad path) >> lift (yaml_load path).

(** [cfg.<attr>] *)
Definition getattr (cfg : Cfg) (attr : string) : M yaml_value :=
  match cfg !! attr with
  | Some v => ret v
  | None => raise (AttributeError attr)
  end.

(** [assert cond, msg] *)
Definition py_assert (cond : bool) (msg : string) : M unit :=
  if cond then ret tt else raise (AssertionError msg).

(** [kind(args=cfg, frame_rate=frame_rate)]: a new tracker object, at a
    reference that no earlier object has. *)
Definition construct (kind : TrackerKind) (cfg : Cfg) (frame_rate : Z) : M loc :=
  log (EvConstruct kind cfg frame_rate) >>
  let* st := lift (tracker_init kind cfg frame_rate) in
  let* h := get_heap in
  modify_heap (λ h, h ++ [mkTracker kind cfg frame_rate st]) >>
  ret (length h).

(** ** [on_predict_start]

<<
15  def on_predict_start(predictor, persist=False, multiple_videos=False):
26      if hasattr(predictor, 'trackers') and persist:
27          return
28      tracker = check_yaml(predictor.args.tracker)
29      cfg = IterableSimpleNamespace(... yaml_load(tracker))
30      assert cfg.tracker_type in ['bytetrack', 'botsort'], \
31          f"Only support 'bytetrack' and 'botsort' for now, but got '{cfg.tracker_type}'"
32      trackers = []
33      # for batch of frames of the same video, only use one tracker
34      if predictor.source_type.from_img and predictor.dataset.bs >= 1 and not multiple_videos:
35          trackers.append(TRACKER_MAP[cfg.tracker_type](args=cfg, frame_rate=30))
36      else:
37          for _ in range(predictor.dataset.bs):
38              tracker = TRACKER_MAP[cfg.tracker_type](args=cfg, frame_rate=30)
39              trackers.append(tracker)
40      predictor.trackers = trackers
>> *)

(** The body of [for _ in range(predictor.dataset.bs)], with the list
    [trackers] built so far as accumulator. *)
Fixpoint build_trackers (n : nat) (cfg : Cfg) (trackers : list loc) : M (list loc) :=
  match n with
  | O => ret trackers
  | S n' =>
      let* ty := getattr cfg "tracker_type" in
      let* kind := lift (TRACKER_MAP_getitem ty) in
      let* tracker := construct kind cfg 30 in
      build_trackers n' cfg (trackers ++ [tracker])
  end.

Definition on_predict_start (persist multiple_videos : bool) : M unit :=
  let* p := get_predictor in
  if bool_decide (is_Some (trackers p)) && persist then ret tt
  else
    let* tracker := call_check_yaml (args_tracker p) in
    let* cfg := call_yaml_load tracker in
    let* ty := getattr cfg "tracker_type" in
    py_assert (py_in ty supported_names) (unsupported_msg ty) >>
    let trackers := [] in
    let* trackers :=
      (if from_img p && bool_decide (1 ≤ bs p) && negb multiple_videos then
         let* ty := getattr cfg "tracker_type" in
         let* kind := lift (TRACKER_MAP_getitem ty) in
         let* tracker := construct kind cfg 30 in
         ret (trackers ++ [tracker])
       else
         build_trackers (Z.to_nat (bs p)) cfg trackers) in
    let* p := get_predictor in
    put_predictor (set_trackers trackers p).

(** ** [Results] indexing and update *)

(** Python's rule for an index into a sequence of length [n]: a negative
    index counts from the end, anything outside [-n .. n-1] raises. *)
Definition py_index (n : nat) (i : Z) : result nat :=
  if bool_decide (0 ≤ i < Z.of_nat n) then Ok (Z.to_nat i)
  else if bool_decide (- Z.of_nat n ≤ i < 0) then Ok (Z.to_nat (Z.of_nat n + i))
  else Raise IndexError.

(** [a[idx]] for an array and a list of indices: the entries at those
    indices, in the order of [idx]. *)
Fixpoint gather {A} (a : list A) (idx : list Z) : result (list A) :=
  match idx with
  | [] => Ok []
  | i :: idx' =>
      match py_index (length a) i with
      | Raise e => Raise e
      | Ok k =>
          match a !! k, gather a idx' with
          | Some x, Ok xs => Ok (x :: xs)
          | None, _ => Raise IndexError
          | _, Raise e => Raise e
          end
      end
  end.

(** Modelled from the spec: [Results.__getitem__], which is not part of
    this file's source.  "build a new result containing exactly those
    original detections, re-ordered to match track order": a new object
    whose per-detection attributes are those of [r] at the indices [idx],
    in the order of [idx]. *)
Definition Results_getitem (r : Results) (idx : list Z) : result Results :=
  match gather (boxes r) idx, gather (others r) idx with
  | Ok b, Ok o => Ok (mkResults b o)
  | Raise e, _ => Raise e
  | _, Raise e => Raise e
  end.

(** Modelled from the spec: [Results.update(boxes=...)], which is not part
    of this file's source.  "overwrite each detection's region with the
    track's (possibly refined) region": the [boxes] rows are replaced by
    the given ones, the rest of the object stays. *)
Definition Results_update (r : Results) (new_boxes : list box_row) : Results :=
  mkResults new_boxes (others r).

(** ** [on_predict_postprocess_end]

<<
43  def on_predict_postprocess_end(predictor, multiple_videos=False):
50      bs = predictor.dataset.bs
51      im0s = predictor.batch[2]
52      im0s = im0s if isinstance(im0s, list) else [im0s]
53      batch_of_frames = predictor.source_type.from_img and bs >= 1 and not multiple_videos
54      for i in range(bs):
55          det = predictor.results[i].boxes.cpu().numpy()
56          if len(det) == 0:
57              continue
58          # for batch of frames of the same video, only use one tracker
59          if batch_of_frames:
60              tracks = predictor.trackers[0].update(det, im0s[i])
61          else:
62              tracks = predictor.trackers[i].update(det, im0s[i])
63          if len(tracks) == 0:
64              continue
65          idx = tracks[:, -1].tolist()
66          predictor.results[i] = predictor.results[i][idx]
67          predictor.results[i].update(boxes=torch.as_tensor(tracks[:, :-1]))
>> *)

(** [predictor.results[i]] *)
Definition results_getitem (i : nat) : M Results :=
  let* p := get_predictor in
  lift (list_getitem (results p) i).

(** [predictor.results[i] = r] *)
Definition results_setitem (i : nat) (r : Results) : M unit :=
  let* p := get_predictor in
  if bool_decide (i < length (results p))%nat
  then put_predictor (set_results (<[i := r]> (results p)) p)
  else raise IndexError.

(** [predictor.trackers[i]] *)
Definition trackers_getitem (i : nat) : M loc :=
  let* p := get_predictor in
  match trackers p with
  | None => raise (AttributeError "trackers")
  | Some ts => lift (list_getitem ts i)
  end.

Definition set_t_state (o : Tracker) (st : TState) : Tracker :=
  mkTracker (t_kind o) (t_args o) (t_frame_rate o) st.

(** [t.update(det, im)], called while slot [slot] is processed: the
    tracker object behind [t] moves to its next state. *)
Definition call_update (slot : nat) (t : loc) (det : list box_row) (im : image)
  : M (list track) :=
  let* h := get_heap in
  match h !! t with
  | None => raise DanglingRef
  | Some o =>
      let '(ret, st) := tracker_update (t_kind o) (t_state o) det im in
      modify_heap (λ h, <[t := set_t_state o st]> h) >>
      log (EvUpdate slot t det im ret) >>
      lift ret
  end.

(** [predictor.source_type.from_img and bs >= 1 and not multiple_videos] *)
Definition batch_of_frames (p : Predictor) (multiple_videos : bool) : bool :=
  from_img p && bool_decide (1 ≤ bs p) && negb multiple_videos.

(** The body of [for i in range(bs)]. *)
Definition postprocess_slot (batch_of_frames : bool) (im0s : list image) (i : nat)
  : M unit :=
  let* r := results_getitem i in
  let det := boxes r in
  if bool_decide (length det = 0%nat) then ret tt
  else
    let* tracks :=
      (if batch_of_frames then
         let* t := trackers_getitem 0 in
         let* im := lift (list_getitem im0s i) in
         call_update i t det im
       else
         let* t := trackers_getitem i in
         let* im := lift (list_getitem im0s i) in
         call_update i t det im) in
    if bool_decide (length tracks = 0%nat) then ret tt
    else
      let idx := map tr_idx tracks in
      let* r := results_getitem i in
      let* r' := lift (Results_getitem r idx) in
      results_setitem i r' >>
      let* r := results_getitem i in
      results_setitem i (Results_update r (map tr_box tracks)).

(** [im0s if isinstance(im0s, list) else [im0s]] *)
Definition im0s_list (v : im0s_value) : list image :=
  match v with
  | Im0sList l => l
  | Im0sSingle im => [im]
  end.

Definition on_predict_postprocess_end (multiple_videos : bool) : M unit :=
  let* p := get_predictor in
  let bs := bs p in
  let im0s := im0s_list (batch_im0s p) in
  let batch_of_frames := batch_of_frames p multiple_videos in
  for_each (range bs) (postprocess_slot batch_of_frames im0s).

(** * Vocabulary of the properties *)

(** ** Runs of [on_predict_start] *)

(** [hasattr(predictor, 'trackers') and persist]: the call is a persisted
    re-entry and does nothing. *)
Definition reentry (p : Predictor) (persist : bool) : bool :=
  bool_decide (is_Some (trackers p)) && persist.

Definition with_trace (s : State) (evs : list event) : State :=
  mkState (predictor s) (heap s) (trace s ++ evs).

Ltac run_monad :=
  unfold bind, ret, raise, lift, log, get_predictor, put_predictor,
    get_heap, modify_heap, py_assert, getattr in *; simpl in *.

(** How many trackers lines 34-39 construct. *)
Definition instance_count (p : Predictor) (multiple_videos : bool) : nat :=
  if from_img p && bool_decide (1 ≤ bs p) && negb multiple_videos
  then 1%nat else Z.to_nat (bs p).

Definition config_events (p : Predictor) (path : string) : list event :=
  [EvCheckYaml (args_tracker p); EvYamlLoad path].

(** The runs of [on_predict_start], one constructor per way through the
    function. *)
Inductive start_outcome (persist multiple_videos : bool) (s : State)
  : result unit → State → Prop :=
| start_noop :
    is_Some (trackers (predictor s)) → persist = true →
    start_outcome persist multiple_videos s (Ok tt) s
| start_check_yaml_error e :
    reentry (predictor s) persist = false →
    check_yaml (args_tracker (predictor s)) = Raise e →
    start_outcome persist multiple_videos s (Raise e)
      (with_trace s [EvCheckYaml (args_tracker (predictor s))])
| start_yaml_load_error path e :
    reentry (predictor s) persist = false →
    check_yaml (args_tracker (predictor s)) = Ok path →
    yaml_load path = Raise e →
    start_outcome persist multiple_videos s (Raise e)
      (with_trace s (config_events (predictor s) path))
| start_missing_type path cfg :
    reentry (predictor s) persist = false →
    check_yaml (args_tracker (predictor s)) = Ok path →
    yaml_load path = Ok cfg →
    cfg !! "tracker_type" = None →
    start_outcome persist multiple_videos s (Raise (AttributeError "tracker_type"))
      (with_trace s (config_events (predictor s) path))
| start_unsupported path cfg ty :
    reentry (predictor s) persist = false →
    check_yaml (args_tracker (predictor s)) = Ok path →
    yaml_load path = Ok cfg →
    cfg !! "tracker_type" = Some ty →
    py_in ty supported_names = false →
    start_outcome persist multiple_videos s (Raise (AssertionError (unsupported_msg ty)))
      (with_trace s (config_events (predictor s) path))
| start_construct_error path cfg ty kind e :
    reentry (predictor s) persist = false →
    check_yaml (args_tracker (predictor s)) = Ok path →
    yaml_load path = Ok cfg →
    cfg !! "tracker_type" = Some ty →
    py_in ty supported_names = true →
    TRACKER_MAP_getitem ty = Ok kind →
    instance_count (predictor s) multiple_videos ≠ 0%nat →
    tracker_init kind cfg 30 = Raise e →
    start_outcome persist multiple_videos s (Raise e)
      (with_trace s (config_events (predictor s) path ++ [EvConstruct kind cfg 30]))
| start_built path cfg ty kind new :
    reentry (predictor s) persist = false →
    check_yaml (args_tracker (predictor s)) = Ok path →
    yaml_load path = Ok cfg →
    cfg !! "tracker_type" = Some ty →
    py_in ty supported_names = true →
    TRACKER_MAP_getitem ty = Ok kind →
    length new = instance_count (predictor s) multiple_videos →
    Forall (λ o, ∃ st, tracker_init kind cfg 30 = Ok st ∧ o = mkTracker kind cfg 30 st) new →
    start_outcome persist multiple_videos s (Ok tt)
      (mkState (set_trackers (seq (length (heap s)) (length new)) (predictor s))
               (heap s ++ new)
               (trace s ++ config_events (predictor s) path
                        ++ replicate (length new) (EvConstruct kind cfg 30))).

(** ** Assignment mode and routing *)

Inductive AssignmentMode := Shared | PerSlot.

(** The mode as line 53 decides it for the reconciliation. *)
Definition assignment_mode (p : Predictor) (multiple_videos : bool) : AssignmentMode :=
  if batch_of_frames p multiple_videos then Shared else PerSlot.

(** The tracker that serves slot [i]: lines 59-62. *)
Definition route (ts : option (list loc)) (batch_of_frames : bool) (i : nat)
  : option loc :=
  match ts with
  | Some ts => ts !! (if batch_of_frames then 0%nat else i)
  | None => None
  end.

(** ** Runs of the loop body *)

(** Lines 65-67 on the result [r] of a slot, for the tracks returned. *)
Definition reconciled (r : Results) (tracks : list track) : result Results :=
  match Results_getitem r (map tr_idx tracks) with
  | Ok g => Ok (Results_update g (map tr_box tracks))
  | Raise e => Raise e
  end.

(** What the slot holds once [update] has answered [ret], and the
    exception that ends the iteration, if any. *)
Definition slot_after (r : Results) (ret : result (list track)) : Results :=
  match ret with
  | Ok [] | Raise _ => r
  | Ok tracks =>
      match reconciled r tracks with Ok r' => r' | Raise _ => r end
  end.

Definition slot_exn (r : Results) (ret : result (list track)) : option exn :=
  match ret with
  | Raise e => Some e
  | Ok [] => None
  | Ok tracks =>
      match reconciled r tracks with Ok _ => None | Raise e => Some e end
  end.

Definition result_of (e : option exn) : result unit :=
  match e with Some e => Raise e | None => Ok tt end.

(** The runs of [postprocess_slot], one constructor per way through the
    body of the loop. *)
Inductive slot_outcome (bof : bool) (im0s : list image) (i : nat) (s : State)
  : result unit → State → Prop :=
| slot_no_result :
    results (predictor s) !! i = None →
    slot_outcome bof im0s i s (Raise IndexError) s
| slot_empty_det r :
    results (predictor s) !! i = Some r →
    boxes r = [] →
    slot_outcome bof im0s i s (Ok tt) s
| slot_no_tracker r :
    results (predictor s) !! i = Some r →
    boxes r ≠ [] →
    route (trackers (predictor s)) bof i = None →
    slot_outcome bof im0s i s
      (Raise match trackers (predictor s) with
             | Some _ => IndexError
             | None => AttributeError "trackers"
             end) s
| slot_no_image r t :
    results (predictor s) !! i = Some r →
    boxes r ≠ [] →
    route (trackers (predictor s)) bof i = Some t →
    im0s !! i = None →
    slot_outcome bof im0s i s (Raise IndexError) s
| slot_dangling r t im :
    results (predictor s) !! i = Some r →
    boxes r ≠ [] →
    route (trackers (predictor s)) bof i = Some t →
    im0s !! i = Some im →
    heap s !! t = None →
    slot_outcome bof im0s i s (Raise DanglingRef) s
| slot_updated r t im o ret st :
    results (predictor s) !! i = Some r →
    boxes r ≠ [] →
    route (trackers (predictor s)) bof i = Some t →
    im0s !! i = Some im →
    heap s !! t = Some o →
    tracker_update (t_kind o) (t_state o) (boxes r) im = (ret, st) →
    slot_outcome bof im0s i s (result_of (slot_exn r ret))
      (mkState (set_results (<[i := slot_after r ret]> (results (predictor s)))
                            (predictor s))
               (<[t := set_t_state o st]> (heap s))
               (trace s ++ [EvUpdate i t (boxes r) im ret])).

(** ** Runs of the loop *)

(** The slot during whose iteration a call was made. *)
Definition ev_slot (e : event) : option nat :=
  match e with
  | EvUpdate slot _ _ _ _ => Some slot
  | _ => None
  end.

Definition slot_events (i : nat) (evs : list event) : list event :=
  filter (λ e, ev_slot e = Some i) evs.

(** What stays of a tracker object when it is updated. *)
Definition identity (o : Tracker) : TrackerKind * Cfg * Z :=
  (t_kind o, t_args o, t_frame_rate o).

(** What a pass over the slots did to slot [i], from the result [before]
    the pass to the result [after] it, given the calls [evs] that the pass
    made and its outcome [res]: either no [update] was called for the slot
    and its result is untouched, or exactly one was, on the slot's boxes,
    its image and the tracker that serves it, and the result is what lines
    63-67 make of the answer. *)
Definition slot_summary (ts : option (list loc)) (bof : bool) (im0s : list image)
    (i : nat) (before : option Results) (evs : list event)
    (after : option Results) (res : result unit) : Prop :=
  (slot_events i evs = [] ∧ after = before) ∨
  (∃ r t im ret,
     before = Some r ∧ boxes r ≠ [] ∧
     route ts bof i = Some t ∧ im0s !! i = Some im ∧
     slot_events i evs = [EvUpdate i t (boxes r) im ret] ∧
     after = Some (slot_after r ret) ∧
     ∀ e, slot_exn r ret = Some e → res = Raise e).

(** What a pass over the slots [l] did: it wrote nothing but results of
    slots in [l], called nothing but [update] for slots in [l], and
    treated every slot as [slot_summary] says. *)
Definition slots_post (bof : bool) (im0s : list image) (l : list nat)
    (s : State) (res : result unit) (s' : State) : Prop :=
  ∃ rs evs,
    predictor s' = set_results rs (predictor s) ∧
    trace s' = trace s ++ evs ∧
    length rs = length (results (predictor s)) ∧
    identity <$> heap s' = identity <$> heap s ∧
    Forall (λ e, ∃ j, ev_slot e = Some j ∧ j ∈ l) evs ∧
    (∀ j, j ∉ l → rs !! j = results (predictor s) !! j) ∧
    (∀ i, slot_summary (trackers (predictor s)) bof im0s i
            (results (predictor s) !! i) evs (rs !! i) res).

(** [x] is the entry of [a] that the index [i] refers to. *)
Definition refers_to {A} (a : list A) (i : Z) (x : A) : Prop :=
  ∃ k, py_index (length a) i = Ok k ∧ a !! k = Some x.

(** * Properties *)

(** ** Every run of [on_predict_start] is a [start_outcome] *)

Lemma py_in_supported ty :
  py_in ty supported_names = true →
  ∃ kind, TRACKER_MAP_getitem ty = Ok kind.
Proof.
  destruct ty as [name|r]; simpl; [|done].
  intros Hin%bool_decide_eq_true.
  unfold supported_names in Hin.
  rewrite !elem_of_cons in Hin.
  destruct Hin as [->|[->|Hin]]; [by eexists..|].
  by apply elem_of_nil in Hin.
Qed.

Lemma build_trackers_ok n cfg ty kind st acc s :
  cfg !! "tracker_type" = Some ty →
  TRACKER_MAP_getitem ty = Ok kind →
  tracker_init kind cfg 30 = Ok st →
  build_trackers n cfg acc s =
    (Ok (acc ++ seq (length (heap s)) n),
     mkState (predictor s)
             (heap s ++ replicate n (mkTracker kind cfg 30 st))
             (trace s ++ replicate n (EvConstruct kind cfg 30))).
Proof.
  intros Hty Hkind Hinit. revert acc s.
  induction n as [|n IH]; intros acc s.
  - simpl. run_monad. rewrite !app_nil_r. by destruct s.
  - simpl. unfold construct. run_monad. rewrite Hty. simpl.
    rewrite Hkind, Hinit. simpl. rewrite IH. simpl.
    rewrite length_app. simpl. rewrite Nat.add_1_r.
    by rewrite <- !app_assoc.
Qed.

Lemma build_trackers_error n cfg ty kind e acc s :
  cfg !! "tracker_type" = Some ty →
  TRACKER_MAP_getitem ty = Ok kind →
  tracker_init kind cfg 30 = Raise e →
  build_trackers (S n) cfg acc s = (Raise e, with_trace s [EvConstruct kind cfg 30]).
Proof.
  intros Hty Hkind Hinit. simpl. unfold construct. run_monad.
  rewrite Hty. simpl. by rewrite Hkind, Hinit.
Qed.

Lemma on_predict_start_outcome persist multiple_videos s res s' :
  on_predict_start persist multiple_videos s = (res, s') →
  start_outcome persist multiple_videos s res s'.
Proof.
  unfold on_predict_start, call_check_yaml, call_yaml_load. run_monad.
  destruct (bool_decide (is_Some (trackers (predictor s))) && persist) eqn:Hgo.
  { intros [= <- <-]. apply andb_true_iff in Hgo as [Hs%bool_decide_eq_true ->].
    by constructor. }
  destruct (check_yaml _) as [path|e] eqn:Hcheck; simpl.
  2: { intros [= <- <-]. by apply start_check_yaml_error. }
  destruct (yaml_load path) as [cfg|e] eqn:Hload; simpl.
  2: { intros [= <- <-]. rewrite <- app_assoc. by apply start_yaml_load_error. }
  destruct (cfg !! "tracker_type") as [ty|] eqn:Hty; simpl.
  2: { intros [= <- <-]. rewrite <- app_assoc. by eapply start_missing_type. }
  destruct (py_in ty supported_names) eqn:Hin; simpl.
  2: { intros [= <- <-]. rewrite <- app_assoc. by eapply start_unsupported. }
  destruct (py_in_supported _ Hin) as [kind Hkind].
  pose (s2 := with_trace s (config_events (predictor s) path)).
  destruct (tracker_init kind cfg 30) as [st|e] eqn:Hinit.
  - (* every construction succeeds *)
    pose (new := replicate (instance_count (predictor s) multiple_videos)
                           (mkTracker kind cfg 30 st)).
    assert (Hlen : length new = instance_count (predictor s) multiple_videos)
      by apply length_replicate.
    assert (Hnew : Forall (λ o, ∃ st, tracker_init kind cfg 30 = Ok st
                                      ∧ o = mkTracker kind cfg 30 st) new).
    { apply Forall_replicate. eauto. }
    pose proof (start_built persist multiple_videos s path cfg ty kind new
                  Hgo Hcheck Hload Hty Hin Hkind Hlen Hnew) as Hout.
    rewrite Hlen in Hout. subst new. unfold instance_count in *.
    destruct (from_img (predictor s) && bool_decide (1 ≤ bs (predictor s))
              && negb multiple_videos); simpl.
    + unfold construct. run_monad. rewrite Hkind, Hinit. simpl.
      intros [= <- <-]. simpl in Hout. rewrite <- !app_assoc. exact Hout.
    + rewrite (build_trackers_ok _ _ _ _ _ _ _ Hty Hkind Hinit). simpl.
      intros [= <- <-]. rewrite <- !app_assoc. exact Hout.
  - (* the first construction raises, if there is one *)
    destruct (instance_count (predictor s) multiple_videos) as [|n] eqn:Hn.
    + unfold instance_count in Hn.
      destruct (from_img (predictor s) && bool_decide (1 ≤ bs (predictor s))
                && negb multiple_videos) eqn:Hshared; [done|]. simpl.
      rewrite Hn. simpl. run_monad. intros [= <- <-].
      pose proof (start_built persist multiple_videos s path cfg ty kind []
                    Hgo Hcheck Hload Hty Hin Hkind) as Hout.
      simpl in Hout. rewrite app_nil_r in Hout.
      rewrite <- !app_assoc. apply Hout; [|constructor].
      unfold instance_count. by rewrite Hshared.
    + assert (Hn' : instance_count (predictor s) multiple_videos ≠ 0%nat) by lia.
      pose proof (start_construct_error persist multiple_videos s path cfg ty kind e
                    Hgo Hcheck Hload Hty Hin Hkind Hn' Hinit) as Hout.
      unfold instance_count in Hn.
      destruct (from_img (predictor s) && bool_decide (1 ≤ bs (predictor s))
                && negb multiple_videos); simpl.
      * unfold construct. run_monad. rewrite Hkind, Hinit. simpl.
        intros [= <- <-]. unfold with_trace in Hout. simpl in Hout.
        rewrite <- !app_assoc in *. exact Hout.
      * rewrite Hn. rewrite (build_trackers_error _ _ _ _ _ _ _ Hty Hkind Hinit).
        intros [= <- <-]. unfold with_trace in *. simpl in *.
        rewrite <- !app_assoc in *. exact Hout.
Qed.

(** ** The mode and the success of an initialization *)

Lemma batch_of_frames_true p multiple_videos :
  batch_of_frames p multiple_videos = true ↔
  from_img p = true ∧ 1 ≤ bs p ∧ multiple_videos = false.
Proof.
  unfold batch_of_frames.
  rewrite !andb_true_iff, bool_decide_eq_true, negb_true_iff. tauto.
Qed.

Lemma instance_count_mode p multiple_videos :
  instance_count p multiple_videos =
    match assignment_mode p multiple_videos with
    | Shared => 1%nat
    | PerSlot => Z.to_nat (bs p)
    end.
Proof.
  unfold instance_count, assignment_mode, batch_of_frames.
  by destruct (from_img p && bool_decide (1 ≤ bs p) && negb multiple_videos).
Qed.

Lemma not_reentry_false (p : Predictor) persist :
  is_Some (trackers p) → persist = true →
  reentry p persist = false → False.
Proof.
  unfold reentry. intros Hs -> Hgo. rewrite andb_true_r in Hgo.
  by apply bool_decide_eq_false in Hgo.
Qed.

(** With a profile that loads, a registered tracker type and a constructor
    that accepts the configuration, an initialization returns normally. *)
Lemma on_predict_start_returns persist multiple_videos s path cfg ty kind st :
  check_yaml (args_tracker (predictor s)) = Ok path →
  yaml_load path = Ok cfg →
  cfg !! "tracker_type" = Some ty →
  TRACKER_MAP_getitem ty = Ok kind →
  tracker_init kind cfg 30 = Ok st →
  ∃ s', on_predict_start persist multiple_videos s = (Ok tt, s').
Proof.
  intros Hcheck Hload Hty Hkind Hinit.
  destruct (on_predict_start persist multiple_videos s) as [res s'] eqn:Hrun.
  exists s'. f_equal.
  apply on_predict_start_outcome in Hrun.
  inversion Hrun as [Hs Hp|e Hgo Hcheck'|path' e Hgo Hcheck' Hload'
                    |path' cfg' Hgo Hcheck' Hload' Hty'
                    |path' cfg' ty' Hgo Hcheck' Hload' Hty' Hin
                    |path' cfg' ty' kind' e Hgo Hcheck' Hload' Hty' Hin Hkind' Hn Hinit'
                    |path' cfg' ty' kind' new Hgo Hcheck' Hload' Hty' Hin Hkind' Hlen Hnew];
    subst; try done; try congruence.
  assert (path' = path) as -> by congruence.
  assert (cfg' = cfg) as -> by congruence.
  assert (ty' = ty) as -> by congruence.
  destruct ty as [name|r]; simpl in Hin, Hkind; [|done].
  apply bool_decide_eq_false in Hin. unfold supported_names in Hin.
  rewrite !elem_of_cons in Hin.
  unfold TRACKER_MAP in Hkind.
  destruct (decide (name = "bytetrack")) as [->|Hne1]; [destruct Hin; by left|].
  destruct (decide (name = "botsort")) as [->|Hne2]; [destruct Hin; right; by left|].
  rewrite !lookup_insert_ne, lookup_empty in Hkind by done. done.
Qed.

(** ** Claims about [on_predict_start] *)

(** C1. Stream assignment decision.  The mode is Shared exactly when the
    source gives single images, the batch size is at least 1 and
    [multiple_videos] is false.  An initialization with a configuration
    that loads and that the constructor accepts returns normally, and one
    that returns normally has constructed exactly one tracker in Shared
    mode and exactly [bs] trackers, one per slot, in PerSlot mode: the new
    objects are the only change to the heap, each has its own reference,
    slot [i] of [predictor.trackers] holds the [i]-th of them, and one
    constructor call is logged per object. *)
Theorem C1_stream_assignment persist multiple_videos s :
  reentry (predictor s) persist = false →
  0 ≤ bs (predictor s) →
  (assignment_mode (predictor s) multiple_videos = Shared ↔
     from_img (predictor s) = true ∧ 1 ≤ bs (predictor s) ∧ multiple_videos = false) ∧
  (∀ path cfg ty kind st,
     check_yaml (args_tracker (predictor s)) = Ok path →
     yaml_load path = Ok cfg →
     cfg !! "tracker_type" = Some ty →
     TRACKER_MAP_getitem ty = Ok kind →
     tracker_init kind cfg 30 = Ok st →
     ∃ s', on_predict_start persist multiple_videos s = (Ok tt, s')) ∧
  (∀ s',
     on_predict_start persist multiple_videos s = (Ok tt, s') →
     ∃ new path kind cfg,
       heap s' = heap s ++ new ∧
       trackers (predictor s') = Some (seq (length (heap s)) (length new)) ∧
       trace s' = trace s ++ config_events (predictor s) path
                          ++ replicate (length new) (EvConstruct kind cfg 30) ∧
       match assignment_mode (predictor s) multiple_videos with
       | Shared => length new = 1%nat
       | PerSlot => Z.of_nat (length new) = bs (predictor s)
       end).
Proof.
  intros Hgo Hbs. split; [|split].
  { unfold assignment_mode.
    rewrite <- batch_of_frames_true.
    destruct (batch_of_frames _ _); split; congruence. }
  { intros path cfg ty kind st. apply on_predict_start_returns. }
  intros s' Hrun.
  apply on_predict_start_outcome in Hrun.
  inversion Hrun as [Hs Hp| | | | | |path cfg ty kind new _ _ _ _ _ _ Hlen Hnew]; subst.
  { destruct (not_reentry_false _ _ Hs eq_refl Hgo). }
  exists new, path, kind, cfg. simpl. repeat split.
  rewrite Hlen, instance_count_mode.
  destruct (assignment_mode _ _); [done|lia].
Qed.

(** C3. Unsupported tracker type.  When the loaded configuration has a
    [tracker_type] that is neither ['bytetrack'] nor ['botsort'], an
    initialization (any call that is not a persisted re-entry) raises an
    [AssertionError] whose message contains the offending value and both
    supported names; nothing was constructed at that point: the heap and
    the predictor are as before and the only calls made were the two that
    read the configuration. *)
Theorem C3_unsupported_tracker_type persist multiple_videos s path cfg ty :
  reentry (predictor s) persist = false →
  check_yaml (args_tracker (predictor s)) = Ok path →
  yaml_load path = Ok cfg →
  cfg !! "tracker_type" = Some ty →
  ty ≠ YStr "bytetrack" → ty ≠ YStr "botsort" →
  on_predict_start persist multiple_videos s =
    (Raise (AssertionError (unsupported_msg ty)),
     mkState (predictor s) (heap s) (trace s ++ config_events (predictor s) path)) ∧
  occurs_in (py_str ty) (unsupported_msg ty) ∧
  occurs_in "'bytetrack'" (unsupported_msg ty) ∧
  occurs_in "'botsort'" (unsupported_msg ty).
Proof.
  intros Hgo Hcheck Hload Hty Hne1 Hne2.
  assert (Hin : py_in ty supported_names = false).
  { destruct ty as [name|r]; simpl; [|done].
    apply bool_decide_eq_false. unfold supported_names.
    rewrite !elem_of_cons. intros [->|[->|Hnil]]; [done..|].
    by apply elem_of_nil in Hnil. }
  split; [|split; [|split]].
  - destruct (on_predict_start persist multiple_videos s) as [res s'] eqn:Hrun.
    apply on_predict_start_outcome in Hrun.
    inversion Hrun as [Hs Hp| | | |path' cfg' ty' Hgo' Hcheck' Hload' Hty' Hin'
                      |path' cfg' ty' kind e Hgo' Hcheck' Hload' Hty' Hin'
                      |path' cfg' ty' kind new Hgo' Hcheck' Hload' Hty' Hin']; subst;
      try congruence.
    + destruct (not_reentry_false _ _ Hs eq_refl Hgo).
    + assert (path' = path) as -> by congruence.
      assert (cfg' = cfg) as -> by congruence.
      assert (ty' = ty) as -> by congruence.
      done.
  - by exists "Only support 'bytetrack' and 'botsort' for now, but got '", "'".
  - by exists "Only support ",
      (" and 'botsort' for now, but got '" +:+ py_str ty +:+ "'").
  - by exists "Only support 'bytetrack' and ",
      (" for now, but got '" +:+ py_str ty +:+ "'").
Qed.

Lemma start_ok_has_trackers persist multiple_videos s s' :
  on_predict_start persist multiple_videos s = (Ok tt, s') →
  is_Some (trackers (predictor s')).
Proof.
  intros Hrun%on_predict_start_outcome.
  inversion Hrun; subst; simpl; eauto.
Qed.

(** C4. Idempotent re-entry.  With [persist] set and a tracker set already
    on the predictor, [on_predict_start] returns at once: the whole machine
    state is what it was, so no configuration was read (no call is logged)
    and nothing was constructed (the heap is the same).  And a call with
    [persist] that went through leaves a tracker set on the predictor, so a
    second call with [persist] is such a re-entry: it keeps
    [predictor.trackers], the same references to the same objects, as the
    first call left it. *)
Theorem C4_persist_reentry multiple_videos multiple_videos' s :
  (is_Some (trackers (predictor s)) →
   on_predict_start true multiple_videos s = (Ok tt, s)) ∧
  (∀ s1, on_predict_start true multiple_videos s = (Ok tt, s1) →
         is_Some (trackers (predictor s1)) ∧
         on_predict_start true multiple_videos' s1 = (Ok tt, s1)).
Proof.
  assert (Hnoop : ∀ mv s0, is_Some (trackers (predictor s0)) →
                           on_predict_start true mv s0 = (Ok tt, s0)).
  { intros mv s0 Hs. unfold on_predict_start. run_monad.
    by rewrite (bool_decide_eq_true_2 _ Hs). }
  split; [apply Hnoop|].
  intros s1 Hs1%start_ok_has_trackers. split; [done|]. by apply Hnoop.
Qed.

(** C5. Replacement.  A call with [persist=False] initializes anew
    whatever the predictor holds: with a configuration that loads and that
    the constructor accepts it returns normally, and when it returns
    normally the stored tracker set is made only of objects constructed by
    this call.  Every reference in it is new to the heap, so no tracker
    that the predictor held before the call is a member of it (the
    references [old] that it held pointed into the heap, as every
    reference to an object does). *)
Theorem C5_replacement multiple_videos s old :
  trackers (predictor s) = Some old →
  Forall (λ l, l < length (heap s))%nat old →
  (∀ path cfg ty kind st,
     check_yaml (args_tracker (predictor s)) = Ok path →
     yaml_load path = Ok cfg →
     cfg !! "tracker_type" = Some ty →
     TRACKER_MAP_getitem ty = Ok kind →
     tracker_init kind cfg 30 = Ok st →
     ∃ s', on_predict_start false multiple_videos s = (Ok tt, s')) ∧
  (∀ s',
     on_predict_start false multiple_videos s = (Ok tt, s') →
     ∃ ts,
       trackers (predictor s') = Some ts ∧
       Forall (λ l, length (heap s) ≤ l < length (heap s'))%nat ts ∧
       ∀ l, l ∈ old → l ∉ ts).
Proof.
  intros Hold Hwf. split.
  { intros path cfg ty kind st. apply on_predict_start_returns. }
  intros s' Hrun%on_predict_start_outcome.
  inversion Hrun as [Hs Hp| | | | | |path cfg ty kind new _ _ _ _ _ _ Hlen Hnew]; subst;
    [done|].
  simpl. eexists. split; [done|].
  assert (Hfresh : Forall (λ l, length (heap s) ≤ l < length (heap s ++ new))%nat
                     (seq (length (heap s)) (length new))).
  { apply Forall_forall. intros l Hl%elem_of_seq. rewrite length_app. lia. }
  split; [done|].
  intros l Hl Hin.
  rewrite Forall_forall in Hwf, Hfresh.
  specialize (Hwf _ Hl). specialize (Hfresh _ Hin). lia.
Qed.

(** C6. Initialization atomicity.  When [on_predict_start] raises, the
    predictor is exactly as before the call, so [predictor.trackers] is the
    old set (or still absent), and every tracker object that existed is
    untouched.  When it returns, either nothing was done (persisted
    re-entry) or the stored set is the complete one: as many references as
    the mode asks for, each to a constructed object. *)
Theorem C6_initialization_atomicity persist multiple_videos s res s' :
  on_predict_start persist multiple_videos s = (res, s') →
  match res with
  | Raise _ =>
      predictor s' = predictor s ∧
      ∀ l o, heap s !! l = Some o → heap s' !! l = Some o
  | Ok _ =>
      s' = s ∨
      ∃ ts, trackers (predictor s') = Some ts ∧
            length ts = instance_count (predictor s) multiple_videos ∧
            Forall (λ l, is_Some (heap s' !! l)) ts
  end.
Proof.
  intros Hrun%on_predict_start_outcome.
  inversion Hrun as [Hs Hp| | | | | |path cfg ty kind new _ _ _ _ _ _ Hlen Hnew]; subst;
    simpl; auto.
  right. eexists. split; [done|]. split.
  - by rewrite length_seq.
  - apply Forall_forall. intros l Hl%elem_of_seq.
    apply lookup_lt_is_Some. rewrite length_app. lia.
Qed.

(** C9. Uniform seeding.  All trackers constructed by one call of
    [on_predict_start] are constructed alike.  Whatever the outcome, what
    the call logs is some reading of the configuration followed by [n]
    constructor calls with one and the same class, one and the same
    configuration and [frame_rate=30]; every object it adds to the heap was
    made by that constructor from exactly these; and when there is such a
    call, the configuration is the one that was loaded and the class the
    one registered for its [tracker_type]. *)
Theorem C9_uniform_seeding persist multiple_videos s res s' :
  on_predict_start persist multiple_videos s = (res, s') →
  ∃ kind cfg reads n new,
    trace s' = trace s ++ reads ++ replicate n (EvConstruct kind cfg 30) ∧
    Forall (λ e, ∀ k c f, e ≠ EvConstruct k c f) reads ∧
    heap s' = heap s ++ new ∧
    Forall (λ o, t_kind o = kind ∧ t_args o = cfg ∧ t_frame_rate o = 30 ∧
                 tracker_init kind cfg 30 = Ok (t_state o)) new ∧
    (n ≠ 0%nat →
     ∃ path ty,
       check_yaml (args_tracker (predictor s)) = Ok path ∧
       yaml_load path = Ok cfg ∧
       cfg !! "tracker_type" = Some ty ∧
       TRACKER_MAP_getitem ty = Ok kind).
Proof.
  intros Hrun%on_predict_start_outcome.
  assert (Hreads : ∀ path,
            Forall (λ e : event, ∀ k c f, e ≠ EvConstruct k c f)
                   (config_events (predictor s) path)).
  { intros path. by repeat constructor. }
  inversion Hrun as [Hs Hp|e Hgo Hcheck|path e Hgo Hcheck Hload
                    |path cfg Hgo Hcheck Hload Hty|path cfg ty Hgo Hcheck Hload Hty Hin
                    |path cfg ty kind e Hgo Hcheck Hload Hty Hin Hkind Hn Hinit
                    |path cfg ty kind new Hgo Hcheck Hload Hty Hin Hkind Hlen Hnew]; subst.
  - exists BYTETracker, ∅, [], 0%nat, []. simpl. rewrite !app_nil_r.
    repeat split; [constructor|constructor|done].
  - exists BYTETracker, ∅, [EvCheckYaml (args_tracker (predictor s))], 0%nat, [].
    simpl. rewrite !app_nil_r.
    repeat split; [by repeat constructor|constructor|done].
  - exists BYTETracker, ∅, (config_events (predictor s) path), 0%nat, [].
    simpl. rewrite !app_nil_r. repeat split; [apply Hreads|constructor|done].
  - exists BYTETracker, ∅, (config_events (predictor s) path), 0%nat, [].
    simpl. rewrite !app_nil_r. repeat split; [apply Hreads|constructor|done].
  - exists BYTETracker, ∅, (config_events (predictor s) path), 0%nat, [].
    simpl. rewrite !app_nil_r. repeat split; [apply Hreads|constructor|done].
  - exists kind, cfg, (config_events (predictor s) path), 1%nat, [].
    simpl. rewrite !app_nil_r.
    repeat split; [apply Hreads|constructor|]. intros _. by exists path, ty.
  - exists kind, cfg, (config_events (predictor s) path), (length new), new.
    simpl. repeat split; [apply Hreads| |].
    + eapply Forall_impl; [exact Hnew|]. intros o (st & Hst & ->). by simpl.
    + intros _. by exists path, ty.
Qed.

(** ** Every run of the loop body is a [slot_outcome] *)

Lemma set_results_id (p : Predictor) : set_results (results p) p = p.
Proof. by destruct p. Qed.

Lemma length_zero_nil {A} (l : list A) : length l = 0%nat ↔ l = [].
Proof. by destruct l. Qed.

Lemma postprocess_slot_outcome bof im0s i s res s' :
  postprocess_slot bof im0s i s = (res, s') →
  slot_outcome bof im0s i s res s'.
Proof.
  unfold postprocess_slot, results_getitem, list_getitem. run_monad.
  destruct (results (predictor s) !! i) as [r|] eqn:Hr; simpl.
  2: { intros [= <- <-]. by constructor. }
  case_bool_decide as Hdet.
  { intros [= <- <-]. apply length_zero_nil in Hdet. by econstructor. }
  rewrite length_zero_nil in Hdet.
  assert (Hupd : ∀ t,
    route (trackers (predictor s)) bof i = Some t →
    match
      (let* im := lift (list_getitem im0s i) in call_update i t (boxes r) im) s
    with
    | (Ok tracks, s1) =>
        (if bool_decide (length tracks = 0%nat) then ret tt
         else
           let* r0 := results_getitem i in
           let* r' := lift (Results_getitem r0 (map tr_idx tracks)) in
           results_setitem i r' >>
           let* r1 := results_getitem i in
           results_setitem i (Results_update r1 (map tr_box tracks))) s1
    | (Raise e, s1) => (Raise e, s1)
    end = (res, s') →
    slot_outcome bof im0s i s res s').
  { intros t Ht. unfold call_update, list_getitem. run_monad.
    destruct (im0s !! i) as [im|] eqn:Him; simpl.
    2: { intros [= <- <-]. by eapply slot_no_image. }
    destruct (heap s !! t) as [o|] eqn:Ho; simpl.
    2: { intros [= <- <-]. by eapply slot_dangling. }
    destruct (tracker_update (t_kind o) (t_state o) (boxes r) im) as [ret st] eqn:Hu.
    simpl.
    pose proof (slot_updated bof im0s i s r t im o ret st Hr Hdet Ht Him Ho Hu) as Hout.
    assert (Hi : (i < length (results (predictor s)))%nat)
      by (by eapply lookup_lt_Some).
    destruct ret as [tracks|e]; simpl in *.
    2: { intros [= <- <-]. by rewrite list_insert_id, set_results_id in Hout. }
    destruct tracks as [|tr tracks]; simpl in *.
    { intros [= <- <-]. by rewrite list_insert_id, set_results_id in Hout. }
    unfold results_getitem, results_setitem, list_getitem, reconciled in *.
    run_monad. rewrite Hr. simpl.
    destruct (Results_getitem r (tr_idx tr :: map tr_idx tracks)) as [g|e] eqn:Hg;
      simpl in *.
    2: { intros [= <- <-]. by rewrite list_insert_id, set_results_id in Hout. }
    rewrite (bool_decide_eq_true_2 _ Hi). simpl.
    rewrite list_lookup_insert_eq by done. simpl.
    rewrite length_insert, (bool_decide_eq_true_2 _ Hi). simpl.
    unfold set_results in *. simpl. rewrite list_insert_insert_eq.
    intros [= <- <-]. exact Hout. }
  unfold trackers_getitem. run_monad.
  destruct bof; simpl.
  - destruct (trackers (predictor s)) as [ts|] eqn:Hts; simpl.
    2: { intros [= <- <-].
         pose proof (slot_no_tracker true im0s i s r Hr Hdet) as Hout.
         rewrite Hts in Hout. by apply Hout. }
    unfold list_getitem at 1.
    destruct (ts !! 0%nat) as [t|] eqn:Ht; simpl.
    2: { intros [= <- <-].
         pose proof (slot_no_tracker true im0s i s r Hr Hdet) as Hout.
         rewrite Hts in Hout. by apply Hout. }
    by apply Hupd.
  - destruct (trackers (predictor s)) as [ts|] eqn:Hts; simpl.
    2: { intros [= <- <-].
         pose proof (slot_no_tracker false im0s i s r Hr Hdet) as Hout.
         rewrite Hts in Hout. by apply Hout. }
    unfold list_getitem at 1.
    destruct (ts !! i) as [t|] eqn:Ht; simpl.
    2: { intros [= <- <-].
         pose proof (slot_no_tracker false im0s i s r Hr Hdet) as Hout.
         rewrite Hts in Hout. by apply Hout. }
    by apply Hupd.
Qed.

(** ** Every pass over the slots is a [slots_post] *)

Lemma slot_events_outside (l : list nat) evs i :
  Forall (λ e, ∃ j, ev_slot e = Some j ∧ j ∈ l) evs →
  i ∉ l → slot_events i evs = [].
Proof.
  unfold slot_events. induction 1 as [|e evs (j & Hj & Hin) _ IH]; intros Hi; [done|].
  rewrite filter_cons_False; [by apply IH|].
  rewrite Hj. intros [= ->]. done.
Qed.

Lemma slots_post_stay bof im0s l s res :
  slots_post bof im0s l s res s.
Proof.
  exists (results (predictor s)), []. rewrite app_nil_r, set_results_id.
  repeat split; [constructor|]. intros i. by left.
Qed.

(** One more slot in front of a pass that did not reach it. *)
Lemma slots_post_skip bof im0s x l s res s' :
  x ∉ l →
  slots_post bof im0s l s res s' →
  slots_post bof im0s (x :: l) s res s'.
Proof.
  intros Hx (rs & evs & Hp & Htr & Hlen & Hid & Hevs & Hout & Hsum).
  exists rs, evs. repeat split; try done.
  - eapply Forall_impl; [exact Hevs|]. intros e (j & Hj & Hin).
    exists j. split; [done|]. by right.
  - intros j Hj. apply Hout. intros Hin. apply Hj. by right.
Qed.

Lemma for_each_slots_post bof im0s l :
  NoDup l →
  ∀ s res s',
    for_each l (postprocess_slot bof im0s) s = (res, s') →
    slots_post bof im0s l s res s'.
Proof.
  induction 1 as [|x l Hx Hnd IH]; intros s res s'; simpl.
  { unfold ret. intros [= <- <-]. apply slots_post_stay. }
  unfold bind.
  destruct (postprocess_slot bof im0s x s) as [r1 s1] eqn:Hbody.
  apply postprocess_slot_outcome in Hbody.
  inversion Hbody as [Hr|r Hr Hdet|r Hr Hdet|r t Hr Hdet|r t im Hr Hdet
                     |r t im o ret st Hr Hdet Ht Him Ho Hu];
    subst.
  - intros [= <- <-]. apply slots_post_stay.
  - intros Hrest%IH. by apply slots_post_skip.
  - intros [= <- <-]. apply slots_post_stay.
  - intros [= <- <-]. apply slots_post_stay.
  - intros [= <- <-]. apply slots_post_stay.
  - assert (Hi : (x < length (results (predictor s)))%nat)
      by (by eapply lookup_lt_Some).
    assert (Hheap : identity <$> <[t:=set_t_state o st]> (heap s) = identity <$> heap s).
    { rewrite list_fmap_insert. apply list_insert_id.
      by rewrite list_lookup_fmap, Ho. }
    assert (Hhere : ∀ evs,
              Forall (λ e, ∃ j, ev_slot e = Some j ∧ j ∈ l) evs →
              ∀ i, slot_events i (EvUpdate x t (boxes r) im ret :: evs) =
                   if decide (i = x) then [EvUpdate x t (boxes r) im ret]
                   else slot_events i evs).
    { intros evs Hevs i. unfold slot_events. destruct (decide (i = x)) as [->|Hne].
      - rewrite filter_cons_True by done. f_equal.
        by eapply slot_events_outside.
      - rewrite filter_cons_False; [done|]. simpl. congruence. }
    destruct (slot_exn r ret) as [e|] eqn:Hexn; simpl.
    + (* the iteration raises: the loop ends here *)
      intros [= <- <-].
      exists (<[x:=slot_after r ret]> (results (predictor s))),
             [EvUpdate x t (boxes r) im ret].
      simpl. repeat split; try done.
      * by rewrite length_insert.
      * constructor; [|constructor]. exists x. split; [done|]. by left.
      * intros j Hj. apply list_lookup_insert_ne. intros ->. apply Hj. by left.
      * intros i. unfold slot_summary. rewrite (Hhere [] (Forall_nil_2 _)).
        destruct (decide (i = x)) as [->|Hne].
        -- right. exists r, t, im, ret. repeat split; try done.
           ++ by rewrite list_lookup_insert_eq.
           ++ intros e' He'. congruence.
        -- left. split; [done|]. by rewrite list_lookup_insert_ne.
    + (* the iteration is over: the loop goes on from the new state *)
      intros (rs & evs & Hp & Htr & Hlen & Hid & Hevs & Hout & Hsum)%IH.
      simpl in *.
      exists rs, (EvUpdate x t (boxes r) im ret :: evs).
      repeat split.
      * by rewrite Hp.
      * by rewrite Htr, <- app_assoc.
      * by rewrite Hlen, length_insert.
      * by rewrite Hid.
      * constructor.
        -- exists x. split; [done|]. by left.
        -- eapply Forall_impl; [exact Hevs|]. intros e (j & Hj & Hin).
           exists j. split; [done|]. by right.
      * intros j Hj. rewrite Hout.
        -- apply list_lookup_insert_ne. intros ->. apply Hj. by left.
        -- intros Hin. apply Hj. by right.
      * intros i. specialize (Hsum i). unfold slot_summary in *.
        rewrite (Hhere evs Hevs).
        destruct (decide (i = x)) as [->|Hne].
        -- right. exists r, t, im, ret. repeat split; try done.
           ++ rewrite (Hout x Hx). by rewrite list_lookup_insert_eq.
           ++ intros e' He'. congruence.
        -- rewrite list_lookup_insert_ne in Hsum by done. exact Hsum.
Qed.

Lemma on_predict_postprocess_end_post multiple_videos s res s' :
  on_predict_postprocess_end multiple_videos s = (res, s') →
  slots_post (batch_of_frames (predictor s) multiple_videos)
             (im0s_list (batch_im0s (predictor s)))
             (range (bs (predictor s))) s res s'.
Proof.
  unfold on_predict_postprocess_end. run_monad.
  apply for_each_slots_post, NoDup_seq.
Qed.

(** A logged [update] of slot [i] is the one call of that slot. *)
Lemma slot_summary_event ts bof im0s i before evs after res t det im ret :
  slot_summary ts bof im0s i before evs after res →
  EvUpdate i t det im ret ∈ evs →
  ∃ r, before = Some r ∧ boxes r ≠ [] ∧ det = boxes r ∧
       route ts bof i = Some t ∧ im0s !! i = Some im ∧
       slot_events i evs = [EvUpdate i t det im ret] ∧
       after = Some (slot_after r ret) ∧
       ∀ e, slot_exn r ret = Some e → res = Raise e.
Proof.
  intros Hsum Hin.
  assert (Hf : EvUpdate i t det im ret ∈ slot_events i evs).
  { unfold slot_events. by apply list_elem_of_filter. }
  destruct Hsum as [[Hnil _]|(r & t' & im' & ret' & -> & Hdet & Ht & Him & Hevs & -> & Hexn)].
  { rewrite Hnil in Hf. by apply elem_of_nil in Hf. }
  rewrite Hevs in Hf. apply list_elem_of_singleton in Hf.
  injection Hf as -> -> -> ->.
  exists r. by rewrite Hevs.
Qed.

(** ** Indexing with a list of indices *)

Lemma gather_refers {A} (a : list A) idx xs :
  gather a idx = Ok xs → Forall2 (refers_to a) idx xs.
Proof.
  revert xs. induction idx as [|i idx IH]; intros xs; simpl.
  { intros [= <-]. constructor. }
  destruct (py_index (length a) i) as [k|e] eqn:Hk; [|done].
  destruct (a !! k) as [x|] eqn:Hx; [|done].
  destruct (gather a idx) as [ys|e]; [|done].
  intros [= <-]. constructor; [by exists k|by apply IH].
Qed.

Lemma py_index_in_range n i :
  - Z.of_nat n ≤ i < Z.of_nat n → ∃ k, py_index n i = Ok k ∧ (k < n)%nat.
Proof.
  intros Hi. unfold py_index.
  case_bool_decide; [eexists; split; [done|lia]|].
  case_bool_decide; [eexists; split; [done|lia]|lia].
Qed.

Lemma gather_in_range {A} (a : list A) idx :
  Forall (λ i, - Z.of_nat (length a) ≤ i < Z.of_nat (length a)) idx →
  ∃ xs, gather a idx = Ok xs.
Proof.
  induction 1 as [|i idx Hi _ [xs IH]]; simpl; [by eexists|].
  destruct (py_index_in_range _ _ Hi) as (k & -> & Hk).
  destruct (lookup_lt_is_Some_2 a k Hk) as [x ->].
  rewrite IH. by eexists.
Qed.

(** ** Claims about [on_predict_postprocess_end] *)

(** The calls that a run logs are determined by its two traces. *)
Lemma new_events s evs evs' (tr : list event) :
  tr = trace s ++ evs → tr = trace s ++ evs' → evs = evs'.
Proof. intros -> Heq. by apply app_inv_head in Heq. Qed.

(** With back-references that are indices into the detections, lines 65-67
    succeed. *)
Lemma reconciled_in_range (r : Results) (tracks : list track) :
  length (others r) = length (boxes r) →
  Forall (λ tr, - Z.of_nat (length (boxes r)) ≤ tr_idx tr < Z.of_nat (length (boxes r)))
         tracks →
  ∃ r', reconciled r tracks = Ok r' ∧
        boxes r' = map tr_box tracks ∧
        Forall2 (λ tr x, refers_to (others r) (tr_idx tr) x) tracks (others r').
Proof.
  intros Hwf Hidx.
  assert (Hidx' : Forall (λ k, - Z.of_nat (length (boxes r)) ≤ k < Z.of_nat (length (boxes r)))
                         (map tr_idx tracks)).
  { by apply Forall_fmap. }
  destruct (gather_in_range (boxes r) _ Hidx') as [b Hb].
  rewrite <- Hwf in Hidx'.
  destruct (gather_in_range (others r) _ Hidx') as [o Ho].
  unfold reconciled, Results_getitem. rewrite Hb, Ho.
  eexists. split; [done|]. simpl. split; [done|].
  apply gather_refers in Ho.
  by apply (Forall2_fmap_l tr_idx) in Ho.
Qed.

(** The iteration of a slot whose [update] returns tracks that can be
    reconciled. *)
Lemma postprocess_slot_reconciles bof im0s i s r t im o st tr tracks r' :
  results (predictor s) !! i = Some r →
  boxes r ≠ [] →
  route (trackers (predictor s)) bof i = Some t →
  im0s !! i = Some im →
  heap s !! t = Some o →
  tracker_update (t_kind o) (t_state o) (boxes r) im = (Ok (tr :: tracks), st) →
  reconciled r (tr :: tracks) = Ok r' →
  postprocess_slot bof im0s i s =
    (Ok tt, mkState (set_results (<[i := r']> (results (predictor s))) (predictor s))
                    (<[t := set_t_state o st]> (heap s))
                    (trace s ++ [EvUpdate i t (boxes r) im (Ok (tr :: tracks))])).
Proof.
  intros Hr Hdet Ht Him Ho Hu Hrec.
  destruct (postprocess_slot bof im0s i s) as [res s'] eqn:Hrun.
  apply postprocess_slot_outcome in Hrun.
  inversion Hrun as [Hr'|r0 Hr' Hdet'|r0 Hr' Hdet' Ht'|r0 t' Hr' Hdet' Ht' Him'
                    |r0 t' im' Hr' Hdet' Ht' Him' Ho'
                    |r0 t' im' o' ret' st' Hr' Hdet' Ht' Him' Ho' Hu'];
    subst; try congruence.
  assert (r0 = r) as -> by congruence.
  assert (t' = t) as -> by congruence.
  assert (im' = im) as -> by congruence.
  assert (o' = o) as -> by congruence.
  rewrite Hu in Hu'. injection Hu' as <- <-.
  unfold slot_exn, slot_after. by rewrite Hrec.
Qed.

(** A reference that is in range is the plain position for an index that
    is not negative, and the position counted from the end for a negative
    one. *)
Lemma refers_to_position {A} (a : list A) (i : Z) (x : A) :
  refers_to a i x →
  (0 ≤ i → a !! Z.to_nat i = Some x) ∧
  (i < 0 → a !! Z.to_nat (Z.of_nat (length a) + i) = Some x).
Proof.
  intros (k & Hk & Hx). unfold py_index in Hk.
  repeat case_bool_decide; simplify_eq; split; intros; (done || lia).
Qed.

(** C2. Reconciliation result content and order.  Take a slot [i] for which
    the pass called [update] and got a non-empty array [tracks] whose
    back-references are indices into the slot's detections.  After the pass
    the slot holds a new result with one entry per track, in the order of
    [tracks]: its boxes are the rows of the tracks (without the
    back-reference column), and the rest of entry [n] is what the original
    result held at the position that the back-reference of track [n]
    names: position [tr_idx] itself when it is not negative, and the
    position counted from the end when it is.  So the entries are exactly
    the referenced detections, in tracker order, and a detection that no
    track refers to does not appear.  The iteration of such a slot returns
    normally: run in any state in which [update] gives these tracks for the
    slot, it stores this very result and changes nothing else but the
    tracker it called. *)
Theorem C2_reconciliation multiple_videos s res s' evs i r t det im tracks :
  on_predict_postprocess_end multiple_videos s = (res, s') →
  trace s' = trace s ++ evs →
  results (predictor s) !! i = Some r →
  length (others r) = length (boxes r) →
  EvUpdate i t det im (Ok tracks) ∈ evs →
  tracks ≠ [] →
  Forall (λ tr, - Z.of_nat (length (boxes r)) ≤ tr_idx tr < Z.of_nat (length (boxes r)))
         tracks →
  ∃ r',
    results (predictor s') !! i = Some r' ∧
    boxes r' = map tr_box tracks ∧
    Forall2 (λ tr x,
               (0 ≤ tr_idx tr → others r !! Z.to_nat (tr_idx tr) = Some x) ∧
               (tr_idx tr < 0 →
                others r !! Z.to_nat (Z.of_nat (length (others r)) + tr_idx tr) = Some x))
            tracks (others r') ∧
    ∀ bof im0s s0 t0 im0 o st,
      results (predictor s0) !! i = Some r →
      route (trackers (predictor s0)) bof i = Some t0 →
      im0s !! i = Some im0 →
      heap s0 !! t0 = Some o →
      tracker_update (t_kind o) (t_state o) (boxes r) im0 = (Ok tracks, st) →
      postprocess_slot bof im0s i s0 =
        (Ok tt,
         mkState (set_results (<[i := r']> (results (predictor s0))) (predictor s0))
                 (<[t0 := set_t_state o st]> (heap s0))
                 (trace s0 ++ [EvUpdate i t0 (boxes r) im0 (Ok tracks)])).
Proof.
  intros Hrun Htrace Hr Hwf Hev Hne Hidx.
  apply on_predict_postprocess_end_post in Hrun
    as (rs & evs' & Hp & Htr & Hlen & Hid & Hevs & Hout & Hsum).
  assert (evs' = evs) as -> by (by eapply new_events).
  destruct (slot_summary_event _ _ _ _ _ _ _ _ _ _ _ _ (Hsum i) Hev)
    as (r0 & Hr0 & Hdet & -> & Ht & Him & Hsl & Hafter & Hexn).
  assert (r0 = r) as -> by congruence.
  destruct (reconciled_in_range r tracks Hwf Hidx) as (r' & Hrec & Hboxes & Hothers).
  exists r'. rewrite Hp. simpl. rewrite Hafter.
  destruct tracks as [|tr tracks]; [done|].
  unfold slot_after. rewrite Hrec.
  split; [done|]. split; [done|]. split.
  - eapply Forall2_impl; [exact Hothers|].
    intros tr' x Href. by apply refers_to_position.
  - intros bof im0s s0 t0 im0 o st Hr1 Ht0 Him0 Ho Hu.
    by eapply postprocess_slot_reconciles.
Qed.

Lemma postprocess_slot_empty_det bof im0s i s r :
  results (predictor s) !! i = Some r →
  boxes r = [] →
  postprocess_slot bof im0s i s = (Ok tt, s).
Proof.
  intros Hr Hdet.
  destruct (postprocess_slot bof im0s i s) as [res s'] eqn:Hrun.
  apply postprocess_slot_outcome in Hrun.
  inversion Hrun; subst; congruence.
Qed.

Lemma postprocess_slot_empty_tracks bof im0s i s r t im o st :
  results (predictor s) !! i = Some r →
  boxes r ≠ [] →
  route (trackers (predictor s)) bof i = Some t →
  im0s !! i = Some im →
  heap s !! t = Some o →
  tracker_update (t_kind o) (t_state o) (boxes r) im = (Ok [], st) →
  postprocess_slot bof im0s i s =
    (Ok tt, mkState (predictor s) (<[t := set_t_state o st]> (heap s))
                    (trace s ++ [EvUpdate i t (boxes r) im (Ok [])])).
Proof.
  intros Hr Hdet Ht Him Ho Hu.
  destruct (postprocess_slot bof im0s i s) as [res s'] eqn:Hrun.
  apply postprocess_slot_outcome in Hrun.
  inversion Hrun as [Hr'|r' Hr' Hdet'|r' Hr' Hdet' Ht'|r' t' Hr' Hdet' Ht' Him'
                    |r' t' im' Hr' Hdet' Ht' Him' Ho'
                    |r' t' im' o' ret' st' Hr' Hdet' Ht' Him' Ho' Hu'];
    subst; try congruence.
  assert (r' = r) as -> by congruence.
  assert (t' = t) as -> by congruence.
  assert (im' = im) as -> by congruence.
  assert (o' = o) as -> by congruence.
  rewrite Hu in Hu'. injection Hu' as <- <-. simpl.
  by rewrite list_insert_id, set_results_id.
Qed.

(** C7. Empty-set no-ops.  For a slot [i] whose detections are empty, the
    pass leaves the slot's result as it was and calls [update] for it on no
    tracker, and the iteration of the slot returns normally without
    touching the state at all.  For a slot whose [update] returned an empty
    array, the pass leaves the slot's result as it was too, and the
    iteration returns normally, its only effects being those of the
    [update] call itself. *)
Theorem C7_empty_noops multiple_videos s res s' evs i r :
  on_predict_postprocess_end multiple_videos s = (res, s') →
  trace s' = trace s ++ evs →
  results (predictor s) !! i = Some r →
  (boxes r = [] →
     results (predictor s') !! i = Some r ∧
     (∀ t det im ret, EvUpdate i t det im ret ∉ evs) ∧
     (∀ bof im0s s0, results (predictor s0) !! i = Some r →
        postprocess_slot bof im0s i s0 = (Ok tt, s0))) ∧
  (∀ t det im, EvUpdate i t det im (Ok []) ∈ evs →
     results (predictor s') !! i = Some r) ∧
  (∀ bof im0s s0 t im o st,
     results (predictor s0) !! i = Some r →
     boxes r ≠ [] →
     route (trackers (predictor s0)) bof i = Some t →
     im0s !! i = Some im →
     heap s0 !! t = Some o →
     tracker_update (t_kind o) (t_state o) (boxes r) im = (Ok [], st) →
     postprocess_slot bof im0s i s0 =
       (Ok tt, mkState (predictor s0) (<[t := set_t_state o st]> (heap s0))
                       (trace s0 ++ [EvUpdate i t (boxes r) im (Ok [])]))).
Proof.
  intros Hrun Htrace Hr.
  apply on_predict_postprocess_end_post in Hrun
    as (rs & evs' & Hp & Htr & Hlen & Hid & Hevs & Hout & Hsum).
  assert (evs' = evs) as -> by (by eapply new_events).
  rewrite Hp. simpl. split; [|split].
  - intros Hdet.
    assert (Hnone : ∀ t det im ret, EvUpdate i t det im ret ∉ evs).
    { intros t det im ret Hev.
      destruct (slot_summary_event _ _ _ _ _ _ _ _ _ _ _ _ (Hsum i) Hev)
        as (r0 & Hr0 & Hdet0 & _).
      congruence. }
    split; [|split; [done|]].
    + destruct (Hsum i) as [[_ ->]|(r0 & t & im & ret & Hr0 & Hdet0 & _ & _ & Hsl & _)];
        [done|].
      exfalso. eapply Hnone.
      eapply (list_elem_of_filter (λ e, ev_slot e = Some i)).
      fold (slot_events i evs). rewrite Hsl. by left.
    + intros bof im0s s0 Hr0. by eapply postprocess_slot_empty_det.
  - intros t det im Hev.
    destruct (slot_summary_event _ _ _ _ _ _ _ _ _ _ _ _ (Hsum i) Hev)
      as (r0 & Hr0 & _ & _ & _ & _ & _ & -> & _).
    simpl. congruence.
  - intros bof im0s s0 t im o st. apply postprocess_slot_empty_tracks.
Qed.

(** C8. Per-slot tracker routing.  Every call that the pass logs is an
    [update] made for a slot [i] below [bs], on the tracker at index 0 of
    [predictor.trackers] when the mode is Shared and on the one at index
    [i] when it is PerSlot.  The mode is Shared exactly under the condition
    of the initialization, and the two fit: in the state that an
    initialization with the same flag leaves, the routing finds for every
    slot below [bs] a tracker that this initialization constructed, the
    single one in Shared mode and the [i]-th one in PerSlot mode. *)
Theorem C8_routing multiple_videos s res s' evs :
  on_predict_postprocess_end multiple_videos s = (res, s') →
  trace s' = trace s ++ evs →
  Forall (λ e, ∃ i t det im ret ts,
            e = EvUpdate i t det im ret ∧
            Z.of_nat i < bs (predictor s) ∧
            trackers (predictor s) = Some ts ∧
            match assignment_mode (predictor s) multiple_videos with
            | Shared => ts !! 0%nat = Some t
            | PerSlot => ts !! i = Some t
            end) evs ∧
  (assignment_mode (predictor s) multiple_videos = Shared ↔
     from_img (predictor s) = true ∧ 1 ≤ bs (predictor s) ∧ multiple_videos = false) ∧
  (∀ persist s0,
     reentry (predictor s0) persist = false →
     on_predict_start persist multiple_videos s0 = (Ok tt, s) →
     ∀ i, Z.of_nat i < bs (predictor s) →
       route (trackers (predictor s)) (batch_of_frames (predictor s) multiple_videos) i =
         Some (match assignment_mode (predictor s) multiple_videos with
               | Shared => length (heap s0)
               | PerSlot => length (heap s0) + i
               end)%nat).
Proof.
  intros Hrun Htrace.
  apply on_predict_postprocess_end_post in Hrun
    as (rs & evs' & Hp & Htr & Hlen & Hid & Hevs & Hout & Hsum).
  assert (evs' = evs) as -> by (by eapply new_events).
  split; [|split].
  - apply Forall_forall. intros e He.
    rewrite Forall_forall in Hevs.
    destruct (Hevs e He) as (i & Hslot & Hrange).
    destruct e as [| | |i' t det im ret]; try done.
    injection Hslot as ->.
    destruct (slot_summary_event _ _ _ _ _ _ _ _ _ _ _ _ (Hsum i) He)
      as (r0 & Hr0 & _ & _ & Ht & _).
    unfold range in Hrange. apply elem_of_seq in Hrange.
    unfold route in Ht.
    destruct (trackers (predictor s)) as [ts|]; [|done].
    exists i, t, det, im, ret, ts. repeat split; [lia|].
    unfold assignment_mode.
    by destruct (batch_of_frames (predictor s) multiple_videos).
  - unfold assignment_mode. rewrite <- batch_of_frames_true.
    destruct (batch_of_frames _ _); split; congruence.
  - intros persist s0 Hgo Hstart%on_predict_start_outcome i Hi.
    inversion Hstart as [Hs Hpers| | | | |
                        |path cfg ty kind new _ _ _ _ _ _ Hnew _]; subst.
    { destruct (not_reentry_false _ _ Hs eq_refl Hgo). }
    simpl in *.
    assert (Hmode : batch_of_frames
                      (set_trackers (seq (length (heap s0)) (length new)) (predictor s0))
                      multiple_videos
                    = batch_of_frames (predictor s0) multiple_videos) by done.
    unfold assignment_mode. rewrite Hmode.
    rewrite instance_count_mode in Hnew. unfold assignment_mode in Hnew.
    destruct (batch_of_frames (predictor s0) multiple_videos).
    + rewrite Hnew. done.
    + rewrite lookup_seq_lt by lia. done.
Qed.

(** C10. Reconciliation frame property.  A pass over the batch changes
    nothing of the predictor but entries of [predictor.results]: the
    tracker set is the same list of the same references, the tracker
    objects keep their class and what they were constructed from, and the
    list of results keeps its length.  A slot whose result is no longer
    what it was had detections, and [update] was called for it and
    returned a non-empty array. *)
Theorem C10_reconciliation_frame multiple_videos s res s' evs :
  on_predict_postprocess_end multiple_videos s = (res, s') →
  trace s' = trace s ++ evs →
  predictor s' = set_results (results (predictor s')) (predictor s) ∧
  trackers (predictor s') = trackers (predictor s) ∧
  length (results (predictor s')) = length (results (predictor s)) ∧
  identity <$> heap s' = identity <$> heap s ∧
  ∀ i, results (predictor s') !! i ≠ results (predictor s) !! i →
       ∃ r t im tracks,
         results (predictor s) !! i = Some r ∧ boxes r ≠ [] ∧ tracks ≠ [] ∧
         EvUpdate i t (boxes r) im (Ok tracks) ∈ evs.
Proof.
  intros Hrun Htrace.
  apply on_predict_postprocess_end_post in Hrun
    as (rs & evs' & Hp & Htr & Hlen & Hid & Hevs & Hout & Hsum).
  assert (evs' = evs) as -> by (by eapply new_events).
  rewrite Hp. simpl. repeat split; try done.
  intros i Hchanged.
  destruct (Hsum i) as [[_ Heq]|(r & t & im & ret & Hr & Hdet & _ & _ & Hsl & Hafter & _)];
    [done|].
  assert (Hev : EvUpdate i t (boxes r) im ret ∈ evs).
  { eapply (list_elem_of_filter (λ e, ev_slot e = Some i)).
    fold (slot_events i evs). rewrite Hsl. by left. }
  destruct ret as [[|tr tracks]|e]; simpl in Hafter; try congruence.
  by exists r, t, im, (tr :: tracks).
Qed.

(** * Further properties of [on_predict_start] *)

(** Configuration errors.  An initialization hands on what [check_yaml] or
    [yaml_load] raise, and raises [AttributeError] itself when the loaded
    profile has no [tracker_type]; a failing [check_yaml] is the only call
    made, [yaml_load] is not reached.  In all three cases nothing is
    constructed and nothing is stored. *)
Theorem start_configuration_errors persist multiple_videos s :
  reentry (predictor s) persist = false →
  (∀ e, check_yaml (args_tracker (predictor s)) = Raise e →
     on_predict_start persist multiple_videos s =
       (Raise e, mkState (predictor s) (heap s)
                         (trace s ++ [EvCheckYaml (args_tracker (predictor s))]))) ∧
  (∀ path e,
     check_yaml (args_tracker (predictor s)) = Ok path →
     yaml_load path = Raise e →
     on_predict_start persist multiple_videos s =
       (Raise e, mkState (predictor s) (heap s)
                         (trace s ++ config_events (predictor s) path))) ∧
  (∀ path cfg,
     check_yaml (args_tracker (predictor s)) = Ok path →
     yaml_load path = Ok cfg →
     cfg !! "tracker_type" = None →
     on_predict_start persist multiple_videos s =
       (Raise (AttributeError "tracker_type"),
        mkState (predictor s) (heap s) (trace s ++ config_events (predictor s) path))).
Proof.
  intros Hgo.
  assert (Hinv : ∀ res s', on_predict_start persist multiple_videos s = (res, s') →
                           start_outcome persist multiple_videos s res s')
    by apply on_predict_start_outcome.
  split; [|split].
  - intros e Hcheck.
    destruct (on_predict_start persist multiple_videos s) as [res s'] eqn:Hrun.
    specialize (Hinv _ _ eq_refl).
    inversion Hinv as [Hs Hp|e' _ Hcheck'| | | | |]; subst; try congruence.
    + destruct (not_reentry_false _ _ Hs eq_refl Hgo).
    + by assert (e' = e) as -> by congruence.
  - intros path e Hcheck Hload.
    destruct (on_predict_start persist multiple_videos s) as [res s'] eqn:Hrun.
    specialize (Hinv _ _ eq_refl).
    inversion Hinv as [Hs Hp| |path' e' _ Hcheck' Hload'| | | |]; subst; try congruence.
    + destruct (not_reentry_false _ _ Hs eq_refl Hgo).
    + assert (path' = path) as -> by congruence.
      by assert (e' = e) as -> by congruence.
  - intros path cfg Hcheck Hload Hty.
    destruct (on_predict_start persist multiple_videos s) as [res s'] eqn:Hrun.
    specialize (Hinv _ _ eq_refl).
    inversion Hinv as [Hs Hp| | |path' cfg' _ Hcheck' Hload' Hty'| | |]; subst;
      try congruence.
    + destruct (not_reentry_false _ _ Hs eq_refl Hgo).
    + by assert (path' = path) as -> by congruence.
Qed.


(** An empty batch.  With [bs <= 0] and a profile that passes the
    assertion, an initialization returns normally and stores the empty
    list of trackers, in place of whatever the predictor held: the
    constructor is not called, so it cannot object to the configuration. *)
Theorem start_empty_batch persist multiple_videos s path cfg ty :
  reentry (predictor s) persist = false →
  bs (predictor s) ≤ 0 →
  check_yaml (args_tracker (predictor s)) = Ok path →
  yaml_load path = Ok cfg →
  cfg !! "tracker_type" = Some ty →
  py_in ty supported_names = true →
  on_predict_start persist multiple_videos s =
    (Ok tt, mkState (set_trackers [] (predictor s)) (heap s)
                    (trace s ++ config_events (predictor s) path)).
Proof.
  intros Hgo Hbs Hcheck Hload Hty Hin.
  assert (Hcount : instance_count (predictor s) multiple_videos = 0%nat).
  { unfold instance_count. rewrite bool_decide_eq_false_2 by lia.
    rewrite andb_false_r. simpl. lia. }
  destruct (on_predict_start persist multiple_videos s) as [res s'] eqn:Hrun.
  apply on_predict_start_outcome in Hrun.
  inversion Hrun as [Hs Hp| | | | | |path' cfg' ty' kind new _ Hcheck' Hload' _ _ _ Hlen _];
    subst; try congruence.
  - destruct (not_reentry_false _ _ Hs eq_refl Hgo).
  - assert (path' = path) as -> by congruence.
    rewrite Hcount in Hlen. destruct new; [|done].
    simpl. by rewrite !app_nil_r.
Qed.

(** The class behind a name.  Every constructor call that a run of
    [on_predict_start] logs is for [BYTETracker] with a configuration whose
    [tracker_type] is ['bytetrack'], or for [BOTSORT] with one whose
    [tracker_type] is ['botsort']. *)
Theorem start_constructs_registered_class persist multiple_videos s res s' evs
    kind cfg frame_rate :
  on_predict_start persist multiple_videos s = (res, s') →
  trace s' = trace s ++ evs →
  EvConstruct kind cfg frame_rate ∈ evs →
  (cfg !! "tracker_type" = Some (YStr "bytetrack") ∧ kind = BYTETracker) ∨
  (cfg !! "tracker_type" = Some (YStr "botsort") ∧ kind = BOTSORT).
Proof.
  intros Hrun%on_predict_start_outcome Htrace Hev.
  assert (Hclass : ∀ ty k,
            py_in ty supported_names = true → TRACKER_MAP_getitem ty = Ok k →
            (ty = YStr "bytetrack" ∧ k = BYTETracker) ∨
            (ty = YStr "botsort" ∧ k = BOTSORT)).
  { intros [name|r] k; simpl; [|done].
    intros Hin%bool_decide_eq_true. unfold supported_names in Hin.
    rewrite !elem_of_cons in Hin.
    destruct Hin as [->|[->|Hnil]]; [| |by apply elem_of_nil in Hnil].
    - vm_compute. intros [= <-]. by left.
    - vm_compute. intros [= <-]. by right. }
  assert (Hfound : ∀ path k c n ty,
            evs = config_events (predictor s) path ++ replicate n (EvConstruct k c 30) →
            c !! "tracker_type" = Some ty →
            py_in ty supported_names = true → TRACKER_MAP_getitem ty = Ok k →
            (cfg !! "tracker_type" = Some (YStr "bytetrack") ∧ kind = BYTETracker) ∨
            (cfg !! "tracker_type" = Some (YStr "botsort") ∧ kind = BOTSORT)).
  { intros path k c n ty -> Hty Hin Hk.
    apply elem_of_app in Hev as [Hev|Hev].
    { unfold config_events in Hev. rewrite !elem_of_cons in Hev.
      destruct Hev as [?|[?|Hnil]]; [done..|by apply elem_of_nil in Hnil]. }
    apply elem_of_replicate in Hev as [[= -> -> ->] _].
    destruct (Hclass _ _ Hin Hk) as [[-> ->]|[-> ->]]; [by left|by right]. }
  inversion Hrun as [Hs Hp|e Hgo Hcheck|path e Hgo Hcheck Hload
                    |path c Hgo Hcheck Hload Hty|path c ty Hgo Hcheck Hload Hty Hin
                    |path c ty k e Hgo Hcheck Hload Hty Hin Hkind Hn Hinit
                    |path c ty k new Hgo Hcheck Hload Hty Hin Hkind Hlen Hnew]; subst.
  - rewrite <- (app_nil_r (trace s')) in Htrace at 1.
    apply app_inv_head in Htrace as <-. by apply elem_of_nil in Hev.
  - apply app_inv_head in Htrace as <-.
    apply list_elem_of_singleton in Hev. done.
  - apply app_inv_head in Htrace as <-.
    unfold config_events in Hev. rewrite !elem_of_cons in Hev.
    destruct Hev as [?|[?|Hnil]]; [done..|by apply elem_of_nil in Hnil].
  - apply app_inv_head in Htrace as <-.
    unfold config_events in Hev. rewrite !elem_of_cons in Hev.
    destruct Hev as [?|[?|Hnil]]; [done..|by apply elem_of_nil in Hnil].
  - apply app_inv_head in Htrace as <-.
    unfold config_events in Hev. rewrite !elem_of_cons in Hev.
    destruct Hev as [?|[?|Hnil]]; [done..|by apply elem_of_nil in Hnil].
  - apply app_inv_head in Htrace.
    by eapply (Hfound path k c 1%nat ty).
  - simpl in Htrace. apply app_inv_head in Htrace.
    by eapply (Hfound path k c (length new) ty).
Qed.

(** * Further properties of [on_predict_postprocess_end] *)

Lemma for_each_app {A} (l1 l2 : list A) (body : A → M unit) s :
  for_each (l1 ++ l2) body s =
    match for_each l1 body s with
    | (Ok _, s1) => for_each l2 body s1
    | (Raise e, s1) => (Raise e, s1)
    end.
Proof.
  revert s. induction l1 as [|x l1 IH]; intros s; simpl; [done|].
  unfold bind. destruct (body x s) as [[[]|e] s1]; [apply IH|done].
Qed.

Lemma range_split (n : Z) (i : nat) :
  Z.of_nat i < n →
  range n = seq 0 i ++ i :: seq (S i) (Z.to_nat n - S i).
Proof.
  intros Hi. unfold range.
  replace (Z.to_nat n) with (i + S (Z.to_nat n - S i))%nat at 1 by lia.
  by rewrite seq_app.
Qed.

(** Slots without detections are passed over. *)
Lemma for_each_skip_empty bof im0s (l l' : list nat) s :
  (∀ j, j ∈ l → ∃ r, results (predictor s) !! j = Some r ∧ boxes r = []) →
  for_each (l ++ l') (postprocess_slot bof im0s) s =
    for_each l' (postprocess_slot bof im0s) s.
Proof.
  induction l as [|x l IH]; intros Hempty; simpl; [done|].
  destruct (Hempty x) as (r & Hr & Hdet); [by left|].
  unfold bind. rewrite (postprocess_slot_empty_det _ _ _ _ _ Hr Hdet).
  apply IH. intros j Hj. apply Hempty. by right.
Qed.

(** A batch without detections.  When every slot below [bs] has a result
    with no detections (in particular when [bs <= 0]), the pass returns
    normally and changes nothing; it asks neither for
    [predictor.trackers] nor for an image, so it does so even before any
    initialization. *)
Theorem pass_no_detections multiple_videos s :
  (∀ i, Z.of_nat i < bs (predictor s) →
        ∃ r, results (predictor s) !! i = Some r ∧ boxes r = []) →
  on_predict_postprocess_end multiple_videos s = (Ok tt, s).
Proof.
  intros Hempty. unfold on_predict_postprocess_end. run_monad.
  rewrite <- (app_nil_r (range _)). rewrite for_each_skip_empty; [done|].
  intros j Hj. apply Hempty. unfold range in Hj. apply elem_of_seq in Hj. lia.
Qed.

Lemma postprocess_slot_unrouted bof im0s i s r :
  results (predictor s) !! i = Some r →
  boxes r ≠ [] →
  route (trackers (predictor s)) bof i = None →
  postprocess_slot bof im0s i s =
    (Raise match trackers (predictor s) with
           | Some _ => IndexError
           | None => AttributeError "trackers"
           end, s).
Proof.
  intros Hr Hdet Ht.
  destruct (postprocess_slot bof im0s i s) as [res s'] eqn:Hrun.
  apply postprocess_slot_outcome in Hrun.
  inversion Hrun; subst; congruence.
Qed.

(** No tracker for a slot.  Let slot [i] be the first one with detections.
    If the predictor has no [trackers] attribute, the pass raises
    [AttributeError]; if it has one whose list is too short for the index
    that the mode asks for (0 or [i]), the pass raises [IndexError].
    Either way nothing has changed when the exception leaves the pass. *)
Theorem pass_unrouted_slot multiple_videos s i r :
  Z.of_nat i < bs (predictor s) →
  (∀ j, (j < i)%nat → ∃ r, results (predictor s) !! j = Some r ∧ boxes r = []) →
  results (predictor s) !! i = Some r →
  boxes r ≠ [] →
  route (trackers (predictor s)) (batch_of_frames (predictor s) multiple_videos) i = None →
  on_predict_postprocess_end multiple_videos s =
    (Raise match trackers (predictor s) with
           | Some _ => IndexError
           | None => AttributeError "trackers"
           end, s).
Proof.
  intros Hi Hempty Hr Hdet Ht. unfold on_predict_postprocess_end. run_monad.
  rewrite (range_split _ _ Hi), for_each_skip_empty.
  - simpl. unfold bind. by rewrite (postprocess_slot_unrouted _ _ _ _ _ Hr Hdet Ht).
  - intros j Hj%elem_of_seq. apply Hempty. lia.
Qed.


(** The tracker on which a call was made. *)
Definition ev_tracker (e : event) : option loc :=
  match e with
  | EvUpdate _ t _ _ _ => Some t
  | _ => None
  end.

Lemma postprocess_slot_calls bof im0s i s res s' :
  postprocess_slot bof im0s i s = (res, s') →
  ∃ evs, trace s' = trace s ++ evs ∧
         omap ev_slot evs `sublist_of` [i] ∧
         ∀ l, l ∉ omap ev_tracker evs → heap s' !! l = heap s !! l.
Proof.
  intros Hrun%postprocess_slot_outcome.
  inversion Hrun as [Hr|r Hr Hdet|r Hr Hdet|r t Hr Hdet|r t im Hr Hdet
                    |r t im o ret st Hr Hdet Ht Him Ho Hu]; subst.
  1-5: exists []; rewrite app_nil_r; repeat split; apply sublist_nil_l.
  exists [EvUpdate i t (boxes r) im ret]. simpl. repeat split; [done|].
  intros l Hl. apply list_lookup_insert_ne. intros ->. apply Hl. by left.
Qed.

Lemma for_each_calls bof im0s (l : list nat) s res s' :
  for_each l (postprocess_slot bof im0s) s = (res, s') →
  ∃ evs, trace s' = trace s ++ evs ∧
         omap ev_slot evs `sublist_of` l ∧
         ∀ t, t ∉ omap ev_tracker evs → heap s' !! t = heap s !! t.
Proof.
  revert s. induction l as [|x l IH]; intros s; simpl.
  { unfold ret. intros [= <- <-]. exists []. by rewrite app_nil_r. }
  unfold bind.
  destruct (postprocess_slot bof im0s x s) as [r1 s1] eqn:Hbody.
  apply postprocess_slot_calls in Hbody as (evs1 & Htr1 & Hsub1 & Hheap1).
  destruct r1 as [[]|e].
  - intros (evs2 & Htr2 & Hsub2 & Hheap2)%IH.
    exists (evs1 ++ evs2). split; [|split].
    + by rewrite Htr2, Htr1, <- app_assoc.
    + rewrite omap_app. change (x :: l) with ([x] ++ l). by apply sublist_app.
    + intros t Ht. rewrite omap_app, elem_of_app in Ht.
      rewrite Hheap2 by (intros Hin; apply Ht; by right).
      apply Hheap1. intros Hin. apply Ht. by left.
  - intros [= <- <-]. exists evs1. split; [done|]. split; [|done].
    change (x :: l) with ([x] ++ l). by apply sublist_inserts_r.
Qed.

Lemma sublist_seq_increasing (l : list nat) k n :
  l `sublist_of` seq k n →
  ∀ a b i j, (a < b)%nat → l !! a = Some i → l !! b = Some j → (i < j)%nat.
Proof.
  revert k l. induction n as [|n IH]; intros k l; simpl.
  { intros ->%sublist_nil_r a b i j _ Ha. by rewrite lookup_nil in Ha. }
  intros [Hsub|(l' & -> & Hsub)]%sublist_cons_r a b i j Hab Ha Hb.
  { by eapply IH. }
  destruct b as [|b]; [lia|]. simpl in Hb.
  destruct a as [|a]; simpl in Ha.
  - injection Ha as <-.
    apply list_elem_of_lookup_2 in Hb.
    apply (elem_of_sublist _ _ _ Hb), elem_of_seq in Hsub. lia.
  - eapply (IH _ _ Hsub a b); [lia|done..].
Qed.

(** Order of the calls.  The only calls of a pass are [update] calls, and
    the slots for which they are made, in the order of the calls, are
    picked from 0, 1, ..., [bs]-1 in this order: slot numbers increase
    along the log, so no slot is served twice and none after a later one. *)
Theorem pass_call_order multiple_videos s res s' evs :
  on_predict_postprocess_end multiple_videos s = (res, s') →
  trace s' = trace s ++ evs →
  Forall (λ e, is_Some (ev_slot e)) evs ∧
  omap ev_slot evs `sublist_of` range (bs (predictor s)) ∧
  ∀ a b i j, (a < b)%nat →
    omap ev_slot evs !! a = Some i → omap ev_slot evs !! b = Some j → (i < j)%nat.
Proof.
  intros Hrun Htrace.
  pose proof (on_predict_postprocess_end_post _ _ _ _ Hrun)
    as (rs & evs' & Hp & Htr & Hlen & Hid & Hevs & Hout & Hsum).
  assert (evs' = evs) as -> by (by eapply new_events).
  unfold on_predict_postprocess_end in Hrun. run_monad.
  apply for_each_calls in Hrun as (evs' & Htr' & Hsub & _).
  assert (evs' = evs) as -> by (by eapply new_events).
  split; [|split; [done|]].
  - eapply Forall_impl; [exact Hevs|]. intros e (j & -> & _). by eexists.
  - by eapply sublist_seq_increasing.
Qed.

(** Trackers that are not called.  A pass changes tracker objects only
    through [update]: an object on which the pass logs no [update] is,
    state included, what it was before the pass. *)
Theorem pass_untouched_trackers multiple_videos s res s' evs t :
  on_predict_postprocess_end multiple_videos s = (res, s') →
  trace s' = trace s ++ evs →
  (∀ i det im ret, EvUpdate i t det im ret ∉ evs) →
  heap s' !! t = heap s !! t.
Proof.
  intros Hrun Htrace Hnone.
  unfold on_predict_postprocess_end in Hrun. run_monad.
  apply for_each_calls in Hrun as (evs' & Htr' & _ & Hheap).
  assert (evs' = evs) as -> by (by eapply new_events).
  apply Hheap. intros (e & He & Ht)%list_elem_of_omap.
  destruct e as [| | |i t' det im ret]; try done.
  injection Ht as ->. by eapply Hnone.
Qed.

Lemma for_each_ok_split {A} (l1 : list A) x l2 (body : A → M unit) s s' :
  for_each (l1 ++ x :: l2) body s = (Ok tt, s') →
  ∃ s1 s2, for_each l1 body s = (Ok tt, s1) ∧
           body x s1 = (Ok tt, s2) ∧
           for_each l2 body s2 = (Ok tt, s').
Proof.
  rewrite for_each_app.
  destruct (for_each l1 body s) as [[[]|e] s1]; [|done].
  simpl. unfold bind.
  destruct (body x s1) as [[[]|e] s2] eqn:Hbody; [|done].
  intros Hrest. by exists s1, s2.
Qed.

Lemma for_each_seq_raise (body : nat → M unit) n s e s' :
  for_each (seq 0 n) body s = (Raise e, s') →
  ∃ i s1, (i < n)%nat ∧
          for_each (seq 0 i) body s = (Ok tt, s1) ∧
          body i s1 = (Raise e, s').
Proof.
  induction n as [|n IH]; [done|].
  rewrite seq_S, for_each_app. simpl.
  destruct (for_each (seq 0 n) body s) as [[[]|e0] s0] eqn:Hpre.
  - unfold bind. destruct (body n s0) as [[[]|e1] s1] eqn:Hbody; [done|].
    intros [= -> ->]. exists n, s0. split; [lia|done].
  - intros [= -> ->]. destruct (IH eq_refl) as (i & s1 & Hi & Hok & Hraise).
    exists i, s1. split; [lia|done].
Qed.

(** The first exception ends the pass.  When the pass raises, there is a
    slot [i] below [bs] at which it did: the slots before [i] were
    processed and what was done for them stays, the iteration of slot [i]
    raised the exception, and the slots after [i] are as they were, with no
    [update] made for them. *)
Theorem pass_stops_at_error multiple_videos s e s' evs :
  on_predict_postprocess_end multiple_videos s = (Raise e, s') →
  trace s' = trace s ++ evs →
  ∃ i s1,
    Z.of_nat i < bs (predictor s) ∧
    for_each (seq 0 i)
      (postprocess_slot (batch_of_frames (predictor s) multiple_videos)
                        (im0s_list (batch_im0s (predictor s)))) s = (Ok tt, s1) ∧
    postprocess_slot (batch_of_frames (predictor s) multiple_videos)
                     (im0s_list (batch_im0s (predictor s))) i s1 = (Raise e, s') ∧
    ∀ j, (i < j)%nat →
      results (predictor s') !! j = results (predictor s) !! j ∧
      ∀ t det im ret, EvUpdate j t det im ret ∉ evs.
Proof.
  intros Hrun Htrace. unfold on_predict_postprocess_end in Hrun. run_monad.
  unfold range in Hrun.
  destruct (for_each_seq_raise _ _ _ _ _ Hrun) as (i & s1 & Hi & Hpre & Hbody).
  exists i, s1. split; [lia|]. split; [done|]. split; [done|].
  assert (Hcut : for_each (seq 0 (S i))
                   (postprocess_slot (batch_of_frames (predictor s) multiple_videos)
                                     (im0s_list (batch_im0s (predictor s)))) s
                 = (Raise e, s')).
  { rewrite seq_S, for_each_app, Hpre. simpl. unfold bind. by rewrite Hbody. }
  apply for_each_slots_post in Hcut
    as (rs & evs' & Hp & Htr & Hlen & Hid & Hevs & Hout & Hsum); [|apply NoDup_seq].
  assert (evs' = evs) as -> by (by eapply new_events).
  intros j Hj. rewrite Hp. simpl. split.
  - apply Hout. intros Hin%elem_of_seq. lia.
  - intros t det im ret Hev. rewrite Forall_forall in Hevs.
    destruct (Hevs _ Hev) as (j' & [= <-] & Hin%elem_of_seq). lia.
Qed.

(** A pass that returns normally has served every slot.  Every slot below
    [bs] had a result, and either it had no detections or one [update] was
    made for it, on its boxes, and answered with tracks. *)
Theorem pass_ok_serves_all multiple_videos s s' evs i :
  on_predict_postprocess_end multiple_videos s = (Ok tt, s') →
  trace s' = trace s ++ evs →
  Z.of_nat i < bs (predictor s) →
  ∃ r, results (predictor s) !! i = Some r ∧
       (boxes r = [] ∨
        ∃ t im tracks, EvUpdate i t (boxes r) im (Ok tracks) ∈ evs).
Proof.
  intros Hrun Htrace Hi. unfold on_predict_postprocess_end in Hrun. run_monad.
  rewrite (range_split _ _ Hi) in Hrun.
  apply for_each_ok_split in Hrun as (s1 & s2 & Hpre & Hbody & Hpost).
  apply for_each_slots_post in Hpre
    as (rs & evsA & Hp & HtrA & _ & _ & _ & Hout & _); [|apply NoDup_seq].
  assert (Hsame : results (predictor s1) !! i = results (predictor s) !! i).
  { rewrite Hp. simpl. apply Hout. intros Hin%elem_of_seq. lia. }
  apply for_each_calls in Hpost as (evsC & HtrC & _).
  apply postprocess_slot_outcome in Hbody.
  inversion Hbody as [|r Hr Hdet| | | |r t im o ret st Hr Hdet Ht Him Ho Hu Hres];
    subst.
  - exists r. split; [congruence|]. by left.
  - exists r. split; [congruence|]. right.
    destruct ret as [tracks|e]; [|done].
    exists t, im, tracks.
    simpl in HtrC. rewrite HtrA, <- !app_assoc in HtrC.
    rewrite (new_events _ _ _ _ Htrace HtrC).
    rewrite !elem_of_app. right. left. by left.
Qed.

(** ** From initialization to reconciliation *)

(** Every slot of the batch has a tracker: the index that the mode asks for
    is within [predictor.trackers], and the reference found there is to a
    tracker object. *)
Definition ready (s : State) (multiple_videos : bool) : Prop :=
  ∀ i, Z.of_nat i < bs (predictor s) →
    ∃ t, route (trackers (predictor s))
               (batch_of_frames (predictor s) multiple_videos) i = Some t ∧
         is_Some (heap s !! t).

(** An initialization that goes through leaves a tracker for every slot of
    a pass with the same [multiple_videos]. *)
Theorem start_makes_ready persist multiple_videos s0 s :
  reentry (predictor s0) persist = false →
  on_predict_start persist multiple_videos s0 = (Ok tt, s) →
  ready s multiple_videos.
Proof using check_yaml yaml_load tracker_init.
  clear tracker_update.
  intros Hgo Hrun%on_predict_start_outcome.
  inversion Hrun as [Hs Hp| | | | | |path cfg ty kind new _ _ _ _ _ _ Hlen _]; subst.
  { destruct (not_reentry_false _ _ Hs eq_refl Hgo). }
  intros i Hi. simpl in Hi, Hlen |- *.
  assert (Hmode : batch_of_frames
                    (set_trackers (seq (length (heap s0)) (length new)) (predictor s0))
                    multiple_videos
                  = batch_of_frames (predictor s0) multiple_videos) by done.
  rewrite Hmode. rewrite instance_count_mode in Hlen. unfold assignment_mode in Hlen.
  assert (Hfound : ∀ k, (k < length new)%nat →
            seq (length (heap s0)) (length new) !! k = Some (length (heap s0) + k)%nat ∧
            is_Some ((heap s0 ++ new) !! (length (heap s0) + k)%nat)).
  { intros k Hk. split; [by apply lookup_seq_lt|].
    apply lookup_lt_is_Some. rewrite length_app. clear -Hk. lia. }
  destruct (batch_of_frames (predictor s0) multiple_videos).
  - eexists. apply Hfound. clear -Hlen. lia.
  - eexists. apply Hfound. clear -Hlen Hi. lia.
Qed.

(** A pass, whatever its outcome and its own flag, leaves a tracker for
    every slot if there was one: it changes neither [predictor.trackers]
    nor the batch size or the source type, and no tracker object goes
    away.  So one initialization serves all the batches of a run. *)
Theorem pass_keeps_ready multiple_videos multiple_videos' s res s' :
  ready s multiple_videos →
  on_predict_postprocess_end multiple_videos' s = (res, s') →
  ready s' multiple_videos.
Proof.
  intros Hready Hrun.
  apply on_predict_postprocess_end_post in Hrun
    as (rs & evs & Hp & _ & _ & Hid & _).
  assert (Hlen : length (heap s') = length (heap s)).
  { by rewrite <- (length_fmap identity (heap s')), Hid, length_fmap. }
  intros i Hi. rewrite Hp in *. simpl in *.
  destruct (Hready i Hi) as (t & Ht & Hheap).
  exists t. split; [done|].
  apply lookup_lt_is_Some. rewrite Hlen. by apply lookup_lt_is_Some.
Qed.

(** What one iteration needs. *)
Definition slot_ready (bof : bool) (im0s : list image) (i : nat) (s : State) : Prop :=
  is_Some (results (predictor s) !! i) ∧
  is_Some (im0s !! i) ∧
  ∃ t, route (trackers (predictor s)) bof i = Some t ∧ is_Some (heap s !! t).

(** Every result has as many rows of boxes as of the other data. *)
Definition aligned_results (s : State) : Prop :=
  Forall (λ r, length (others r) = length (boxes r)) (results (predictor s)).

(** The tracking algorithms answer every [update] with tracks whose
    back-references are indices into the detections they were given. *)
Definition update_in_range : Prop :=
  ∀ kind st det im,
    ∃ tracks st',
      tracker_update kind st det im = (Ok tracks, st') ∧
      Forall (λ tr, - Z.of_nat (length det) ≤ tr_idx tr < Z.of_nat (length det)) tracks.

Lemma postprocess_slot_succeeds bof im0s i s :
  update_in_range →
  slot_ready bof im0s i s →
  aligned_results s →
  ∃ s1, postprocess_slot bof im0s i s = (Ok tt, s1) ∧
        aligned_results s1 ∧
        ∀ j, slot_ready bof im0s j s → slot_ready bof im0s j s1.
Proof.
  intros Hupd ([r0 Hr0] & [im0 Him0] & t0 & Ht0 & [o0 Ho0]) Hal.
  destruct (postprocess_slot bof im0s i s) as [res s1] eqn:Hrun.
  apply postprocess_slot_outcome in Hrun.
  inversion Hrun as [Hr|r Hr Hdet|r Hr Hdet Ht|r t Hr Hdet Ht Him|r t im Hr Hdet Ht Him Ho
                    |r t im o ret st Hr Hdet Ht Him Ho Hu]; subst; try congruence.
  { by exists s1. }
  destruct (Hupd (t_kind o) (t_state o) (boxes r) im) as (tracks & st' & Hu' & Hidx).
  rewrite Hu in Hu'. injection Hu' as -> ->.
  assert (Hr_al : length (others r) = length (boxes r)).
  { unfold aligned_results in Hal. rewrite Forall_forall in Hal.
    apply Hal. by eapply list_elem_of_lookup_2. }
  destruct (reconciled_in_range r tracks Hr_al Hidx) as (r' & Hrec & Hboxes & Hothers).
  assert (Hexn : slot_exn r (Ok tracks) = None).
  { unfold slot_exn. destruct tracks; [done|]. by rewrite Hrec. }
  assert (Hafter : length (others (slot_after r (Ok tracks)))
                   = length (boxes (slot_after r (Ok tracks)))).
  { unfold slot_after. destruct tracks as [|tr tracks]; [done|]. rewrite Hrec.
    apply Forall2_length in Hothers. rewrite Hboxes, length_fmap. by rewrite <- Hothers. }
  rewrite Hexn. simpl. eexists. split; [done|]. split.
  - unfold aligned_results. simpl. by apply Forall_insert.
  - intros j ([rj Hrj] & Himj & tj & Htj & Hoj). unfold slot_ready. simpl.
    split; [|split; [done|]].
    + apply lookup_lt_is_Some. rewrite length_insert. by eapply lookup_lt_Some.
    + exists tj. split; [done|].
      apply lookup_lt_is_Some. rewrite length_insert. by apply lookup_lt_is_Some.
Qed.

Lemma for_each_succeeds bof im0s (l : list nat) s :
  update_in_range →
  (∀ i, i ∈ l → slot_ready bof im0s i s) →
  aligned_results s →
  ∃ s', for_each l (postprocess_slot bof im0s) s = (Ok tt, s').
Proof.
  intros Hupd. revert s. induction l as [|x l IH]; intros s Hready Hal; simpl.
  { by eexists. }
  destruct (postprocess_slot_succeeds bof im0s x s Hupd) as (s1 & Hbody & Hal1 & Hkeep);
    [apply Hready; by left|done|].
  unfold bind. rewrite Hbody. apply IH; [|done].
  intros i Hi. apply Hkeep, Hready. by right.
Qed.

(** When a pass goes through.  If every slot below [bs] has a tracker, a
    result and an image, the results have their rows aligned, and the
    tracking algorithms answer with tracks that refer to detections they
    were given, then the pass returns normally. *)
Theorem pass_succeeds multiple_videos s :
  update_in_range →
  ready s multiple_videos →
  (∀ i, Z.of_nat i < bs (predictor s) →
        is_Some (results (predictor s) !! i) ∧
        is_Some (im0s_list (batch_im0s (predictor s)) !! i)) →
  aligned_results s →
  ∃ s', on_predict_postprocess_end multiple_videos s = (Ok tt, s').
Proof.
  intros Hupd Hready Hslots Hal.
  unfold on_predict_postprocess_end. run_monad.
  apply for_each_succeeds; [done| |done].
  intros i Hi. unfold range in Hi. apply elem_of_seq in Hi.
  assert (Hi' : Z.of_nat i < bs (predictor s)) by lia.
  destruct (Hslots i Hi') as [Hres Him].
  split; [done|]. split; [done|]. by apply Hready.
Qed.

(** * [register_tracker]

<<
70  def register_tracker(model, persist, multiple_videos=False):
80      model.add_callback('on_predict_start',
                           partial(on_predict_start, persist=persist, multiple_videos=multiple_videos))
81      model.add_callback('on_predict_postprocess_end',
                           partial(on_predict_postprocess_end, multiple_videos=multiple_videos))
>>

    The model object is not part of this file's source.  It is represented
    by what is registered on it, in the order of the registrations: a list
    of event names with their handlers.  A handler is called with the
    predictor, so it is a computation of the monad. *)




End Track.

(** * A concrete setting

    A small instance of the collaborators, to run the callbacks on: two
    profiles on disk, one of them with a tracker type that is not
    registered, and a tracking algorithm that counts the frames it has
    seen, keeps the detections whose (integer) box is at least 10, latest
    first, and marks the boxes it returns by adding 1000. *)

Module Demo.

Definition check_yaml (name : string) : result string :=
  if bool_decide (name = "missing.yaml") then Raise (ExternalError "FileNotFoundError")
  else Ok ("cfg/" +:+ name).

Definition yaml_load (path : string) : result Cfg :=
  if bool_decide (path = "cfg/bytetrack.yaml")
  then Ok (<["track_buffer" := YOther "30"]> (<["tracker_type" := YStr "bytetrack"]> ∅))
  else if bool_decide (path = "cfg/botsort.yaml")
  then Ok (<["tracker_type" := YStr "botsort"]> ∅)
  else if bool_decide (path = "cfg/deepsort.yaml")
  then Ok (<["tracker_type" := YStr "deepsort"]> ∅)
  else Ok ∅.

Definition tracker_init (kind : TrackerKind) (cfg : Cfg) (frame_rate : Z) : result nat :=
  match cfg !! "track_buffer" with
  | Some _ => Ok 0%nat
  | None => Raise (AttributeError "track_buffer")
  end.

Fixpoint keep (k : Z) (det : list Z) (acc : list (@track Z)) : list (@track Z) :=
  match det with
  | [] => acc
  | b :: det' =>
      keep (k + 1) det' (if bool_decide (10 ≤ b) then mkTrack (b + 1000) k :: acc else acc)
  end.

Definition tracker_update (kind : TrackerKind) (frames : nat) (det : list Z) (im : string)
  : result (list (@track Z)) * nat :=
  (Ok (keep 0 det []), S frames).

Definition on_predict_start :=
  @on_predict_start Z string string nat check_yaml yaml_load tracker_init.

Definition on_predict_postprocess_end :=
  @on_predict_postprocess_end Z string string nat tracker_update.

(** A predictor on a list of three in-memory images, before any tracker
    was set up. *)
Definition three_images (profile : string) : @State Z string string nat :=
  mkState
    (mkPredictor None profile true 3 (Im0sList ["im0"; "im1"; "im2"])
       [mkResults [50; 5; 70] ["a"; "b"; "c"];
        mkResults [] [];
        mkResults [3; 4] ["d"; "e"]])
    [] [].

(** The same predictor with another profile name. *)
Definition retarget (profile : string) (s : @State Z string string nat)
  : @State Z string string nat :=
  mkState
    (mkPredictor (trackers (predictor s)) profile (from_img (predictor s))
       (bs (predictor s)) (batch_im0s (predictor s)) (results (predictor s)))
    (heap s) (trace s).

Definition fresh : @State Z string string nat := three_images "bytetrack.yaml".

(** After an initialization for frames of one video, and for frames of
    different videos. *)
Definition started_shared := snd (on_predict_start false false fresh).
Definition started_per_slot := snd (on_predict_start false true fresh).

(** After a reconciliation pass in PerSlot mode, and the calls it made. *)
Definition reconciled_per_slot := snd (on_predict_postprocess_end true started_per_slot).
Definition pass_events :=
  drop (length (trace started_per_slot)) (trace reconciled_per_slot).

Definition cfg_bytetrack : Cfg :=
  <["track_buffer" := YOther "30"]> (<["tracker_type" := YStr "bytetrack"]> ∅).
Definition cfg_deepsort : Cfg := <["tracker_type" := YStr "deepsort"]> ∅.

End Demo.

(** ** The claims on the concrete setting *)

(** For a single-image source with [bs = 3]: one tracker when the frames
    are of one video, three when [multiple_videos] is set. *)
Lemma C1_stream_assignment_witness :
  (∃ new, heap Demo.started_shared = heap Demo.fresh ++ new ∧ length new = 1%nat) ∧
  (∃ new, heap Demo.started_per_slot = heap Demo.fresh ++ new ∧ Z.of_nat (length new) = 3).
Proof.
  split.
  - destruct (C1_stream_assignment Demo.check_yaml Demo.yaml_load Demo.tracker_init
                false false Demo.fresh)
      as (_ & _ & Hbuilt); [reflexivity|vm_compute; discriminate|].
    destruct (Hbuilt Demo.started_shared)
      as (new & path & kind & cfg & Hheap & _ & _ & Hmode); [vm_compute; reflexivity|].
    exists new. split; [exact Hheap|exact Hmode].
  - destruct (C1_stream_assignment Demo.check_yaml Demo.yaml_load Demo.tracker_init
                false true Demo.fresh)
      as (_ & _ & Hbuilt); [reflexivity|vm_compute; discriminate|].
    destruct (Hbuilt Demo.started_per_slot)
      as (new & path & kind & cfg & Hheap & _ & _ & Hmode); [vm_compute; reflexivity|].
    exists new. split; [exact Hheap|exact Hmode].
Defined.

Example start_shared_trackers :
  trackers (predictor Demo.started_shared) = Some [0%nat] ∧
  length (heap Demo.started_shared) = 1%nat.
Proof. by vm_compute. Qed.

Example start_per_slot_trackers :
  trackers (predictor Demo.started_per_slot) = Some [0%nat; 1%nat; 2%nat] ∧
  length (heap Demo.started_per_slot) = 3%nat.
Proof. by vm_compute. Qed.

(** With a single slot, PerSlot mode constructs one tracker as well, the
    one of slot 0. *)
Example start_per_slot_single :
  let s := mkState (mkPredictor None "bytetrack.yaml" true 1 (Im0sList ["im0"]) []) [] [] in
  assignment_mode (predictor s) true = PerSlot ∧
  length (heap (snd (Demo.on_predict_start false true s))) = 1%nat.
Proof. by vm_compute. Qed.

(** The profile [deepsort.yaml] names a tracker type that is not
    registered. *)
Lemma C3_unsupported_tracker_type_witness :
  Demo.on_predict_start false false (Demo.three_images "deepsort.yaml") =
    (Raise (AssertionError
       "Only support 'bytetrack' and 'botsort' for now, but got 'deepsort'"),
     mkState (predictor (Demo.three_images "deepsort.yaml")) []
             [EvCheckYaml "deepsort.yaml"; EvYamlLoad "cfg/deepsort.yaml"]) ∧
  occurs_in "deepsort"
    "Only support 'bytetrack' and 'botsort' for now, but got 'deepsort'" ∧
  occurs_in "'bytetrack'"
    "Only support 'bytetrack' and 'botsort' for now, but got 'deepsort'" ∧
  occurs_in "'botsort'"
    "Only support 'bytetrack' and 'botsort' for now, but got 'deepsort'".
Proof.
  apply (C3_unsupported_tracker_type Demo.check_yaml Demo.yaml_load Demo.tracker_init
           false false (Demo.three_images "deepsort.yaml")
           "cfg/deepsort.yaml" Demo.cfg_deepsort (YStr "deepsort"));
    [reflexivity|reflexivity|reflexivity|reflexivity|discriminate|discriminate].
Defined.

(** A second call with [persist] on the state the first one left. *)
Lemma C4_persist_reentry_witness :
  Demo.on_predict_start true false Demo.started_shared = (Ok tt, Demo.started_shared) ∧
  (is_Some (trackers (predictor (snd (Demo.on_predict_start true false Demo.fresh)))) ∧
   Demo.on_predict_start true true (snd (Demo.on_predict_start true false Demo.fresh)) =
     (Ok tt, snd (Demo.on_predict_start true false Demo.fresh))).
Proof.
  split.
  - apply (C4_persist_reentry Demo.check_yaml Demo.yaml_load Demo.tracker_init
             false false Demo.started_shared).
    vm_compute. eauto.
  - apply (C4_persist_reentry Demo.check_yaml Demo.yaml_load Demo.tracker_init
             false true Demo.fresh).
    vm_compute. reflexivity.
Defined.


(** Slot 0 has three detections; the tracker returns tracks for the third
    and the first one, in this order. *)
Lemma C2_reconciliation_witness :
  results (predictor Demo.reconciled_per_slot) !! 0%nat =
    Some (mkResults [1070; 1050] ["c"; "a"]).
Proof.
  destruct (C2_reconciliation Demo.tracker_update true Demo.started_per_slot (Ok tt)
              Demo.reconciled_per_slot Demo.pass_events 0%nat
              (mkResults [50; 5; 70] ["a"; "b"; "c"]) 0%nat [50; 5; 70] "im0"
              [mkTrack 1070 2; mkTrack 1050 0])
    as (r' & Hres & Hboxes & Hothers & _).
  - vm_compute. reflexivity.
  - vm_compute. reflexivity.
  - reflexivity.
  - reflexivity.
  - vm_compute. apply list_elem_of_here.
  - discriminate.
  - repeat constructor; vm_compute; discriminate.
  - rewrite Hres. f_equal. destruct r' as [b o]. simpl in Hboxes, Hothers.
    rewrite Hboxes. f_equal.
    apply Forall2_cons_inv_l in Hothers as (x & o1 & [Hx _] & Hothers & ->).
    apply Forall2_cons_inv_l in Hothers as (y & o2 & [Hy _] & Hothers & ->).
    apply Forall2_nil_inv_l in Hothers as ->.
    assert (Some "c" = Some x) as [= <-] by (apply Hx; discriminate).
    assert (Some "a" = Some y) as [= <-] by (apply Hy; discriminate).
    reflexivity.
Defined.

Example reconcile_two_of_three :
  results (predictor Demo.reconciled_per_slot) !! 0%nat =
    Some (mkResults [1070; 1050] ["c"; "a"]).
Proof. by vm_compute. Qed.

(** The tracker set of the first initialization is [[0]]; the second one
    stores three other trackers. *)
Lemma C5_replacement_witness :
  ∃ ts,
    trackers (predictor (snd (Demo.on_predict_start false true Demo.started_shared)))
      = Some ts ∧
    Forall (λ l, 1 ≤ l < 4)%nat ts ∧
    ∀ l, l ∈ [0%nat] → l ∉ ts.
Proof.
  destruct (C5_replacement Demo.check_yaml Demo.yaml_load Demo.tracker_init
              true Demo.started_shared [0%nat]) as [_ Hreplaced];
    [reflexivity|repeat constructor|].
  apply (Hreplaced (snd (Demo.on_predict_start false true Demo.started_shared))).
  vm_compute. reflexivity.
Defined.

Example replacement_trackers :
  trackers (predictor (snd (Demo.on_predict_start false true Demo.started_shared)))
    = Some [1%nat; 2%nat; 3%nat].
Proof. by vm_compute. Qed.

(** An initialization that fails on the profile keeps the tracker set of
    the one before. *)
Lemma C6_initialization_atomicity_witness :
  let s := Demo.retarget "deepsort.yaml" Demo.started_shared in
  let s' := snd (Demo.on_predict_start false false s) in
  predictor s' = predictor s ∧
  ∀ l o, heap s !! l = Some o → heap s' !! l = Some o.
Proof.
  apply (C6_initialization_atomicity Demo.check_yaml Demo.yaml_load Demo.tracker_init
           false false (Demo.retarget "deepsort.yaml" Demo.started_shared)
           (Raise (AssertionError
              "Only support 'bytetrack' and 'botsort' for now, but got 'deepsort'"))).
  vm_compute. reflexivity.
Defined.

Example failed_start_keeps_trackers :
  trackers (predictor (snd (Demo.on_predict_start false false
                              (Demo.retarget "deepsort.yaml" Demo.started_shared))))
    = Some [0%nat].
Proof. by vm_compute. Qed.

(** A profile without the fields that the tracker's constructor reads: the
    first constructor call raises and nothing is stored. *)
Example failed_construction_stores_nothing :
  Demo.on_predict_start false true (Demo.three_images "botsort.yaml") =
    (Raise (AttributeError "track_buffer"),
     mkState (predictor (Demo.three_images "botsort.yaml")) []
       [EvCheckYaml "botsort.yaml"; EvYamlLoad "cfg/botsort.yaml";
        EvConstruct BOTSORT (<["tracker_type" := YStr "botsort"]> ∅) 30]).
Proof. by vm_compute. Qed.

(** Slot 1 has no detections. *)
Lemma C7_empty_noops_witness :
  results (predictor Demo.reconciled_per_slot) !! 1%nat = Some (mkResults [] []) ∧
  (∀ t det im ret, EvUpdate 1 t det im ret ∉ Demo.pass_events).
Proof.
  destruct (C7_empty_noops Demo.tracker_update true Demo.started_per_slot (Ok tt)
              Demo.reconciled_per_slot Demo.pass_events 1%nat (mkResults [] []))
    as ((Hres & Hnone & _) & _);
    [vm_compute; reflexivity|vm_compute; reflexivity|reflexivity|reflexivity|].
  split; [exact Hres|exact Hnone].
Defined.

(** For slot 2 the tracker returns no track. *)
Example empty_tracks_slot :
  EvUpdate 2 2%nat [3; 4] "im2" (Ok []) ∈ Demo.pass_events ∧
  results (predictor Demo.reconciled_per_slot) !! 2%nat =
    Some (mkResults [3; 4] ["d"; "e"]).
Proof. split; [vm_compute; set_solver|by vm_compute]. Qed.

(** The calls of the pass in PerSlot mode. *)
Lemma C8_routing_witness :
  Forall (λ e, ∃ i t det im ret ts,
            e = EvUpdate i t det im ret ∧
            Z.of_nat i < 3 ∧
            Some [0%nat; 1%nat; 2%nat] = Some ts ∧
            ts !! i = Some t)
         [EvUpdate 0 0%nat [50; 5; 70] "im0" (Ok [mkTrack 1070 2; mkTrack 1050 0]);
          EvUpdate 2 2%nat [3; 4] "im2" (Ok [])].
Proof.
  apply (C8_routing Demo.check_yaml Demo.yaml_load Demo.tracker_init Demo.tracker_update
           true Demo.started_per_slot (Ok tt) Demo.reconciled_per_slot Demo.pass_events).
  - vm_compute. reflexivity.
  - vm_compute. reflexivity.
Defined.

(** In Shared mode every call goes to the one tracker. *)
Example shared_pass_events :
  let s' := snd (Demo.on_predict_postprocess_end false Demo.started_shared) in
  drop (length (trace Demo.started_shared)) (trace s') =
    [EvUpdate 0 0%nat [50; 5; 70] "im0" (Ok [mkTrack 1070 2; mkTrack 1050 0]);
     EvUpdate 2 0%nat [3; 4] "im2" (Ok [])].
Proof. by vm_compute. Qed.

(** The three trackers of the PerSlot initialization. *)
Lemma C9_uniform_seeding_witness :
  ∃ kind cfg reads n new,
    trace Demo.started_per_slot =
      trace Demo.fresh ++ reads ++ replicate n (EvConstruct kind cfg 30) ∧
    Forall (λ e, ∀ k c f, e ≠ EvConstruct k c f) reads ∧
    heap Demo.started_per_slot = heap Demo.fresh ++ new ∧
    Forall (λ o, t_kind o = kind ∧ t_args o = cfg ∧ t_frame_rate o = 30 ∧
                 Demo.tracker_init kind cfg 30 = Ok (t_state o)) new ∧
    (n ≠ 0%nat →
     ∃ path ty,
       Demo.check_yaml "bytetrack.yaml" = Ok path ∧
       Demo.yaml_load path = Ok cfg ∧
       cfg !! "tracker_type" = Some ty ∧
       TRACKER_MAP_getitem ty = Ok kind).
Proof.
  apply (C9_uniform_seeding Demo.check_yaml Demo.yaml_load Demo.tracker_init
           false true Demo.fresh (Ok tt) Demo.started_per_slot).
  vm_compute. reflexivity.
Defined.

Example per_slot_constructions :
  drop 2 (trace Demo.started_per_slot) =
    replicate 3 (EvConstruct BYTETracker Demo.cfg_bytetrack 30).
Proof. by vm_compute. Qed.

(** The pass in PerSlot mode changes the result of slot 0 only. *)
Lemma C10_reconciliation_frame_witness :
  trackers (predictor Demo.reconciled_per_slot) = trackers (predictor Demo.started_per_slot) ∧
  length (results (predictor Demo.reconciled_per_slot)) =
    length (results (predictor Demo.started_per_slot)) ∧
  ∀ i, results (predictor Demo.reconciled_per_slot) !! i
         ≠ results (predictor Demo.started_per_slot) !! i →
       ∃ r t im tracks,
         results (predictor Demo.started_per_slot) !! i = Some r ∧
         boxes r ≠ [] ∧ tracks ≠ [] ∧
         EvUpdate i t (boxes r) im (Ok tracks) ∈ Demo.pass_events.
Proof.
  destruct (C10_reconciliation_frame Demo.tracker_update true Demo.started_per_slot (Ok tt)
              Demo.reconciled_per_slot Demo.pass_events)
    as (_ & Hts & Hlen & _ & Hchanged);
    [vm_compute; reflexivity|vm_compute; reflexivity|].
  split; [exact Hts|]. split; [exact Hlen|exact Hchanged].
Defined.

(** * The further properties on the concrete setting *)

Module Edge.

(** The predictor of [Demo.started_shared] at a moment without frames,
    pointed at the BoT-SORT profile, which the constructor of the concrete
    setting does not accept. *)
Definition no_slots : @State Z string string nat :=
  mkState
    (mkPredictor (trackers (predictor Demo.started_shared)) "botsort.yaml" false 0
       (Im0sList []) [])
    (heap Demo.started_shared) (trace Demo.started_shared).

(** Two frames in which the detector found nothing, before any
    initialization. *)
Definition quiet : @State Z string string nat :=
  mkState
    (mkPredictor None "bytetrack.yaml" true 2 (Im0sList ["im0"; "im1"])
       [mkResults [] []; mkResults [] []])
    [] [].

(** One image that is not wrapped in a list. *)
Definition bare : @State Z string string nat :=
  mkState
    (mkPredictor None "bytetrack.yaml" true 1 (Im0sSingle "im")
       [mkResults [50; 5; 70] ["a"; "b"; "c"]])
    [] [].
Definition bare_started := snd (Demo.on_predict_start false false bare).
Definition bare_reconciled := snd (Demo.on_predict_postprocess_end false bare_started).
Definition bare_events :=
  drop (length (trace bare_started)) (trace bare_reconciled).

(** A pass in PerSlot mode over the tracker set of a Shared
    initialization: slot 2 finds no tracker. *)
Definition mismatched := snd (Demo.on_predict_postprocess_end true Demo.started_shared).
Definition mismatched_events :=
  drop (length (trace Demo.started_shared)) (trace mismatched).

End Edge.

Lemma start_configuration_errors_witness :
  Demo.on_predict_start false false (Demo.three_images "missing.yaml") =
    (Raise (ExternalError "FileNotFoundError"),
     mkState (predictor (Demo.three_images "missing.yaml")) []
             [EvCheckYaml "missing.yaml"]) ∧
  Demo.on_predict_start false false (Demo.three_images "empty.yaml") =
    (Raise (AttributeError "tracker_type"),
     mkState (predictor (Demo.three_images "empty.yaml")) []
             [EvCheckYaml "empty.yaml"; EvYamlLoad "cfg/empty.yaml"]).
Proof.
  split.
  - apply (start_configuration_errors Demo.check_yaml Demo.yaml_load Demo.tracker_init
             false false (Demo.three_images "missing.yaml")); reflexivity.
  - apply (start_configuration_errors Demo.check_yaml Demo.yaml_load Demo.tracker_init
             false false (Demo.three_images "empty.yaml")) with (cfg := ∅); reflexivity.
Defined.


Lemma start_empty_batch_witness :
  Demo.on_predict_start false true Edge.no_slots =
    (Ok tt,
     mkState (set_trackers [] (predictor Edge.no_slots)) (heap Edge.no_slots)
             (trace Edge.no_slots
                ++ [EvCheckYaml "botsort.yaml"; EvYamlLoad "cfg/botsort.yaml"])).
Proof.
  apply (start_empty_batch Demo.check_yaml Demo.yaml_load Demo.tracker_init
           false true Edge.no_slots "cfg/botsort.yaml"
           (<["tracker_type" := YStr "botsort"]> ∅) (YStr "botsort"));
    [reflexivity|vm_compute; discriminate|reflexivity|reflexivity|reflexivity|reflexivity].
Defined.

Lemma start_constructs_registered_class_witness :
  (Demo.cfg_bytetrack !! "tracker_type" = Some (YStr "bytetrack")
   ∧ BYTETracker = BYTETracker) ∨
  (Demo.cfg_bytetrack !! "tracker_type" = Some (YStr "botsort")
   ∧ BYTETracker = BOTSORT).
Proof.
  apply (start_constructs_registered_class Demo.check_yaml Demo.yaml_load Demo.tracker_init
           false true Demo.fresh (Ok tt) Demo.started_per_slot
           (trace Demo.started_per_slot) BYTETracker Demo.cfg_bytetrack 30).
  - vm_compute. reflexivity.
  - reflexivity.
  - apply (list_elem_of_lookup_2 _ 2%nat). vm_compute. reflexivity.
Defined.

Lemma start_makes_ready_witness :
  ∃ t, route (trackers (predictor Demo.started_per_slot))
             (batch_of_frames (predictor Demo.started_per_slot) true) 2%nat = Some t ∧
       is_Some (heap Demo.started_per_slot !! t).
Proof.
  apply (start_makes_ready Demo.check_yaml Demo.yaml_load Demo.tracker_init
           false true Demo.fresh Demo.started_per_slot).
  - reflexivity.
  - vm_compute. reflexivity.
  - vm_compute. reflexivity.
Defined.

Lemma pass_no_detections_witness :
  Demo.on_predict_postprocess_end false Edge.quiet = (Ok tt, Edge.quiet).
Proof.
  apply (pass_no_detections Demo.tracker_update false Edge.quiet).
  intros [|[|i]] Hi.
  - by exists (mkResults [] []).
  - by exists (mkResults [] []).
  - exfalso. unfold Edge.quiet in Hi. simpl in Hi. lia.
Defined.

Lemma pass_unrouted_slot_witness :
  Demo.on_predict_postprocess_end false Demo.fresh =
    (Raise (AttributeError "trackers"), Demo.fresh).
Proof.
  apply (pass_unrouted_slot Demo.tracker_update false Demo.fresh 0%nat
           (mkResults [50; 5; 70] ["a"; "b"; "c"])).
  - reflexivity.
  - intros j Hj. inversion Hj.
  - reflexivity.
  - discriminate.
  - reflexivity.
Defined.


Example bare_image_events :
  Edge.bare_events =
    [EvUpdate 0 0%nat [50; 5; 70] "im" (Ok [mkTrack 1070 2; mkTrack 1050 0])].
Proof. by vm_compute. Qed.

Lemma pass_call_order_witness :
  omap ev_slot Demo.pass_events `sublist_of` [0%nat; 1%nat; 2%nat].
Proof.
  apply (pass_call_order Demo.tracker_update true Demo.started_per_slot (Ok tt)
           Demo.reconciled_per_slot Demo.pass_events).
  - vm_compute. reflexivity.
  - vm_compute. reflexivity.
Defined.

Example pass_slots_served : omap ev_slot Demo.pass_events = [0%nat; 2%nat].
Proof. by vm_compute. Qed.

(** Slot 1 has no detections: its tracker keeps its state. *)
Lemma pass_untouched_trackers_witness :
  heap Demo.reconciled_per_slot !! 1%nat = heap Demo.started_per_slot !! 1%nat.
Proof.
  apply (pass_untouched_trackers Demo.tracker_update true Demo.started_per_slot (Ok tt)
           Demo.reconciled_per_slot Demo.pass_events 1%nat).
  - vm_compute. reflexivity.
  - vm_compute. reflexivity.
  - intros i det im ret Hin. vm_compute in Hin.
    apply elem_of_cons in Hin as [Hin|Hin]; [discriminate Hin|].
    apply elem_of_cons in Hin as [Hin|Hin]; [discriminate Hin|].
    by apply elem_of_nil in Hin.
Defined.

(** The pass over one tracker in PerSlot mode reconciles slot 0, passes
    over slot 1 and raises at slot 2; there is no slot after it. *)
Lemma pass_stops_at_error_witness :
  ∃ i, Z.of_nat i < 3 ∧
    ∀ j, (i < j)%nat →
      results (predictor Edge.mismatched) !! j
        = results (predictor Demo.started_shared) !! j.
Proof.
  destruct (pass_stops_at_error Demo.tracker_update true Demo.started_shared
              IndexError Edge.mismatched Edge.mismatched_events)
    as (i & s1 & Hi & _ & _ & Hafter).
  - vm_compute. reflexivity.
  - vm_compute. reflexivity.
  - exists i. split; [exact Hi|]. intros j Hj. apply (Hafter j Hj).
Defined.

Example mismatched_pass :
  fst (Demo.on_predict_postprocess_end true Demo.started_shared) = Raise IndexError ∧
  results (predictor Edge.mismatched) =
    [mkResults [1070; 1050] ["c"; "a"]; mkResults [] []; mkResults [3; 4] ["d"; "e"]] ∧
  omap ev_slot Edge.mismatched_events = [0%nat].
Proof. by vm_compute. Qed.

Lemma pass_ok_serves_all_witness :
  ∃ r, results (predictor Demo.started_per_slot) !! 0%nat = Some r ∧
       (boxes r = [] ∨
        ∃ t im tracks, EvUpdate 0 t (boxes r) im (Ok tracks) ∈ Demo.pass_events).
Proof.
  apply (pass_ok_serves_all Demo.tracker_update true Demo.started_per_slot
           Demo.reconciled_per_slot Demo.pass_events 0%nat).
  - vm_compute. reflexivity.
  - vm_compute. reflexivity.
  - reflexivity.
Defined.

Lemma started_per_slot_ready : ready Demo.started_per_slot true.
Proof.
  intros [|[|[|i]]] Hi.
  - exists 0%nat. split; [reflexivity|]. vm_compute. eauto.
  - exists 1%nat. split; [reflexivity|]. vm_compute. eauto.
  - exists 2%nat. split; [reflexivity|]. vm_compute. eauto.
  - exfalso.
    assert (bs (predictor Demo.started_per_slot) = 3) as Hbs by (by vm_compute).
    rewrite Hbs in Hi. lia.
Defined.

Lemma pass_keeps_ready_witness :
  ∃ t, route (trackers (predictor Demo.reconciled_per_slot))
             (batch_of_frames (predictor Demo.reconciled_per_slot) true) 2%nat = Some t ∧
       is_Some (heap Demo.reconciled_per_slot !! t).
Proof.
  apply (pass_keeps_ready Demo.tracker_update true true Demo.started_per_slot (Ok tt)
           Demo.reconciled_per_slot).
  - exact started_per_slot_ready.
  - vm_compute. reflexivity.
  - vm_compute. reflexivity.
Defined.

(** The tracking algorithm of the concrete setting refers to detections it
    was given. *)
Lemma keep_in_range det : ∀ k acc,
  0 ≤ k →
  Forall (λ tr : @track Z, 0 ≤ tr_idx tr < k) acc →
  Forall (λ tr : @track Z, 0 ≤ tr_idx tr < k + Z.of_nat (length det)) (Demo.keep k det acc).
Proof.
  induction det as [|b det IH]; intros k acc Hk Hacc; simpl.
  - eapply Forall_impl; [exact Hacc|]. intros tr Htr. simpl in Htr. lia.
  - assert (Hacc' : Forall (λ tr : @track Z, 0 ≤ tr_idx tr < k + 1) acc).
    { eapply Forall_impl; [exact Hacc|]. intros tr Htr. simpl in Htr. lia. }
    eapply Forall_impl.
    + apply (IH (k + 1)); [lia|].
      case_bool_decide; [|exact Hacc']. constructor; [simpl; lia|exact Hacc'].
    + intros tr Htr. simpl in Htr. lia.
Qed.

Lemma demo_update_in_range : update_in_range Demo.tracker_update.
Proof.
  intros kind st det im. exists (Demo.keep 0 det []), (S st). split; [done|].
  eapply Forall_impl; [apply (keep_in_range det 0 []); [done|constructor]|].
  intros tr Htr. simpl in Htr. lia.
Qed.

Lemma pass_succeeds_witness :
  ∃ s', Demo.on_predict_postprocess_end true Demo.started_per_slot = (Ok tt, s').
Proof.
  apply (pass_succeeds Demo.tracker_update true Demo.started_per_slot).
  - exact demo_update_in_range.
  - exact started_per_slot_ready.
  - intros [|[|[|i]]] Hi.
    + split; vm_compute; eauto.
    + split; vm_compute; eauto.
    + split; vm_compute; eauto.
    + exfalso.
    assert (bs (predictor Demo.started_per_slot) = 3) as Hbs by (by vm_compute).
    rewrite Hbs in Hi. lia.
  - repeat constructor.
Defined.

